(** * AmbientMonitor: the device command encoding and the connection lifecycle

    A shallow embedding of [AmbientMonitor.py].  The module-level constants
    and every function of the script are translated one by one; calls into
    the BLE stack, the screen grabber, the colour quantiser and [time.sleep]
    are external calls whose outcome is read from a script of outcomes, and
    everything the program does is recorded as a list of events. *)

From Stdlib Require Import ZArith List String Ascii Bool Lia QArith.
From Stdlib Require Import DecimalString.
Import ListNotations.

Local Open Scope string_scope.
Local Open Scope list_scope.
Local Open Scope Z_scope.

(** ** Byte strings and [bytes.fromhex] *)

(** A Python [bytes] value: a list of integers in [0, 255]. *)
Definition bytes := list Z.

(** [Py_ISSPACE]: space, TAB, LF, VT, FF and CR. *)
Definition is_space (c : ascii) : bool :=
  let n := Z.of_N (N_of_ascii c) in
  (n =? 32) || ((9 <=? n) && (n <=? 13)).

(** The value of a hexadecimal digit, in either case. *)
Definition hex_val (c : ascii) : option Z :=
  let n := Z.of_N (N_of_ascii c) in
  if (48 <=? n) && (n <=? 57) then Some (n - 48)
  else if (97 <=? n) && (n <=? 102) then Some (n - 87)
  else if (65 <=? n) && (n <=? 70) then Some (n - 55)
  else None.

(** [bytes.fromhex(s)], reading [s] from offset [pos]: white space is skipped
    in front of a pair of digits; a character that is no hexadecimal digit, or
    the end of the string after a single digit, is a [ValueError] that reports
    the offset ([inl]).  The strings are ASCII, as all that this program
    builds are; for a string with a character beyond ASCII the interpreter
    reports the offset of that character instead. *)
Fixpoint fromhex_at (pos : nat) (s : string) : nat + bytes :=
  match s with
  | EmptyString => inr []
  | String c rest =>
      if is_space c then fromhex_at (S pos) rest
      else
        match hex_val c with
        | None => inl pos
        | Some top =>
            match rest with
            | EmptyString => inl (S pos)
            | String c' rest' =>
                match hex_val c' with
                | None => inl (S pos)
                | Some bot =>
                    match fromhex_at (S (S pos)) rest' with
                    | inl p => inl p
                    | inr bs => inr ((16 * top + bot) :: bs)
                    end
                end
            end
        end
  end.

Definition fromhex (s : string) : nat + bytes := fromhex_at 0 s.

(** ** String formatting: ['{:02x}'] *)

Definition hex_digit (d : Z) : ascii :=
  match d with
  | 0 => "0" | 1 => "1" | 2 => "2" | 3 => "3" | 4 => "4" | 5 => "5"
  | 6 => "6" | 7 => "7" | 8 => "8" | 9 => "9" | 10 => "a" | 11 => "b"
  | 12 => "c" | 13 => "d" | 14 => "e" | _ => "f"
  end%char.

(** The lower-case hexadecimal digits of a non-negative integer, most
    significant first, in front of [acc]. *)
Fixpoint hex_digits (fuel : nat) (n : Z) (acc : string) : string :=
  let acc' := String (hex_digit (n mod 16)) acc in
  match fuel with
  | O => acc'
  | S fuel' => if n / 16 =? 0 then acc' else hex_digits fuel' (n / 16) acc'
  end.

(** ['{:x}'.format(n)] for [0 <= n]. *)
Definition to_hex (n : Z) : string :=
  hex_digits (Z.to_nat (Z.log2 n)) n "".

(** ['{:02x}'.format(n)]: lower-case hexadecimal, zero-filled to a width of
    two characters; the sign of a negative number counts in the width and the
    zeros go between the sign and the digits. *)
Definition format_02x (n : Z) : string :=
  if n <? 0 then
    String "-"%char (to_hex (- n))
  else
    let digits := to_hex n in
    if (String.length digits <? 2)%nat then String "0"%char digits else digits.

(** ** Module-level constants *)

Definition device_address : string := "be:89:10:00:f2:ca".
Definition characteristic_uuid : option string :=
  Some "0000fff3-0000-1000-8000-00805f9b34fb".

Definition ON_HEX : string := "7e0404f00001ff00ef".
Definition OFF_HEX : string := "7e0404000000ff00ef".

Definition region_width : Z := 640.
Definition region_height : Z := 480.

(** ** Values, exceptions and external calls *)

(** [BleakClient(address)]. *)
Record BleakClient := { client_address : string }.

(** A bounding box [(left, top, right, bottom)]. *)
Definition bbox := (Z * Z * Z * Z)%type.

(** What an external call hands back. *)
Inductive pyval :=
| VNone
| VImage (width height : Z)
| VColour (r g b : Z)
| VServices (services : list (list string)).

(** Exceptions.  [PyExc] stands for the subclasses of [Exception] (the class
    name and the message); [SystemExit] and [KeyboardInterrupt] derive from
    [BaseException] only. *)
Inductive exn :=
| PyExc (cls msg : string)
| SystemExit (code : Z)
| KeyboardInterrupt.

Definition is_Exception (e : exn) : bool :=
  match e with
  | PyExc _ _ => true
  | SystemExit _ | KeyboardInterrupt => false
  end.

(** [str(e)]. *)
Definition str_exn (e : exn) : string :=
  match e with
  | PyExc _ msg => msg
  | SystemExit code => NilZero.string_of_int (Z.to_int code)
  | KeyboardInterrupt => ""
  end.

(** The calls that leave the program. *)
Inductive op :=
| Connect (client : BleakClient)
| Disconnect (client : BleakClient)
| GetServices (client : BleakClient)
| WriteGattChar (client : BleakClient) (uuid : option string) (data : bytes)
| Grab (region : option bbox)
| SavePng
| GetDominantColor
| Sleep (seconds : Q).

(** How an external call ends: it returns a value, it raises an exception
    (of a subclass of [Exception], named by [cls]), SIGINT arrives before it is
    over, or it never ends.  For an
    awaited call, [Sigint true] is a signal that arrives while the coroutine is
    suspended and the event loop waits; [Sigint false] is a signal that
    arrives while the coroutine itself is executing. *)
Inductive outcome :=
| Returns (v : pyval)
| Raises (cls msg : string)
| Sigint (suspended : bool)
| Never.

Inductive event :=
| EPrint (line : string)
| ECall (o : op) (r : outcome)
| ECreateTask (client : option BleakClient).

(** The state the functions share: the outcomes still to come, the SIGINT
    disposition, the variable [client] of [main] (unbound, [None] or a client),
    which [sigterm_handler] reads through its closure, and the global
    [screen_region]. *)
Record state := mkState {
  script : list outcome;
  sigint_handler : bool;
  client_var : option (option BleakClient);
  screen_region : option bbox
}.

Definition initial_state (s : list outcome) : state :=
  mkState s false None None.

(** ** The monad of possibly failing, event-emitting computations *)

(** The ways a computation ends without a value: an exception propagates
    ([Raise]); an exception leaves the event loop while the coroutine is
    suspended, so that [run_until_complete] raises it and the coroutine stays
    suspended, its [except] and [finally] clauses not entered ([LoopExit]; what
    the interpreter does with the suspended coroutine while it shuts down is
    not part of the model); a call never returns ([Hang]); the loop bound of
    the model is used up ([OutOfFuel]). *)
Inductive abort :=
| Raise (e : exn)
| LoopExit (e : exn)
| Hang
| OutOfFuel.

Inductive result (A : Type) :=
| Normal (a : A)
| Abort (x : abort).
Arguments Normal {A} a.
Arguments Abort {A} x.

Definition M (A : Type) : Type := state -> result A * list event * state.

Definition ret {A} (a : A) : M A := fun st => (Normal a, [], st).

Definition bind {A B} (m : M A) (k : A -> M B) : M B := fun st =>
  match m st with
  | (Normal a, evs, st1) =>
      let '(r, evs', st2) := k a st1 in (r, evs ++ evs', st2)
  | (Abort x, evs, st1) => (Abort x, evs, st1)
  end.

Declare Scope py_scope.
Delimit Scope py_scope with py.
Notation "x <- c1 ;; c2" := (bind c1 (fun x => c2))
  (at level 61, c1 at next level, right associativity) : py_scope.
Notation "c1 ;; c2" := (bind c1 (fun _ => c2))
  (at level 61, right associativity) : py_scope.
Local Open Scope py_scope.

Definition raise {A} (e : exn) : M A := fun st => (Abort (Raise e), [], st).

Definition print (line : string) : M unit := fun st =>
  (Normal tt, [EPrint line], st).

(** [try: body  except Exception as e: handler e]. *)
Definition try_except {A} (body : M A) (handler : exn -> M A) : M A := fun st =>
  match body st with
  | (Abort (Raise e), evs, st1) =>
      if is_Exception e then
        let '(r, evs', st2) := handler e st1 in (r, evs ++ evs', st2)
      else (Abort (Raise e), evs, st1)
  | other => other
  end.

(** [try: body  finally: final].  The clause runs when the body returns and
    when it raises; an exception of the clause replaces the one in flight. *)
Definition try_finally {A} (body : M A) (final : M unit) : M A := fun st =>
  match body st with
  | (Normal a, evs, st1) =>
      match final st1 with
      | (Normal _, evs', st2) => (Normal a, evs ++ evs', st2)
      | (Abort x, evs', st2) => (Abort x, evs ++ evs', st2)
      end
  | (Abort (Raise e), evs, st1) =>
      match final st1 with
      | (Normal _, evs', st2) => (Abort (Raise e), evs ++ evs', st2)
      | (Abort x, evs', st2) => (Abort x, evs ++ evs', st2)
      end
  | other => other
  end.

(** [while True: body], unrolled at most [fuel] times. *)
Fixpoint while_true (fuel : nat) (body : M unit) : M unit :=
  match fuel with
  | O => fun st => (Abort OutOfFuel, [], st)
  | S fuel' => body ;; while_true fuel' body
  end.

(** ** Signals *)

(** [signal.signal(signal.SIGINT, sigterm_handler)]. *)
Definition signal_SIGINT_sigterm_handler : M unit := fun st =>
  (Normal tt, [],
   mkState (script st) true (client_var st) (screen_region st)).

(** What reading [client] raises while it is unbound: in [sigterm_handler]
    it is a free variable, in [main] a local one. *)
Definition NameError_client : exn :=
  PyExc "NameError"
    "cannot access free variable 'client' where it is not associated with a value in enclosing scope".

Definition UnboundLocalError_client : exn :=
  PyExc "UnboundLocalError"
    "cannot access local variable 'client' where it is not associated with a value".

(** Reading [client] inside [sigterm_handler]. *)
Definition load_free_client : M (option BleakClient) := fun st =>
  match client_var st with
  | Some c => (Normal c, [], st)
  | None => (Abort (Raise NameError_client), [], st)
  end.

(** [loop.create_task(on_exit(client))]: the task is queued on the event
    loop; nothing of it runs here, and the model does not run it later
    either: the event [ECreateTask] is all that a run shows of it.  The
    events of [main] are therefore what the coroutine itself does; what the
    client receives as a whole is read off them only for runs without
    [ECreateTask], that is without SIGINT once [client] is bound. *)
Definition create_task_on_exit (client : option BleakClient) : M unit :=
  fun st => (Normal tt, [ECreateTask client], st).

(** [sys.exit(code)] never returns. *)
Definition sys_exit (code : Z) : M Empty_set := raise (SystemExit code).

(** The handler that [main] defines and registers.
[[
    def sigterm_handler(signum, frame):
        loop = asyncio.get_event_loop()
        loop.create_task(on_exit(client))
        sys.exit(1)
]] *)
Definition sigterm_handler : M Empty_set :=
  client <- load_free_client ;;
  create_task_on_exit client ;;
  sys_exit 1.

(** SIGINT as the interpreter handles it: the registered handler, or the
    default one, which raises [KeyboardInterrupt]. *)
Definition on_sigint {A} : M A := fun st =>
  if sigint_handler st then
    (x <- sigterm_handler ;; match x return M A with end) st
  else raise KeyboardInterrupt st.

(** An exception raised by the handler while the coroutine is suspended
    propagates out of the event loop, not into the coroutine. *)
Definition in_event_loop {A} (r : result A) : result A :=
  match r with
  | Abort (Raise e) => Abort (LoopExit e)
  | other => other
  end.

(** ** External calls *)

Definition set_script (st : state) (s : list outcome) : state :=
  mkState s (sigint_handler st) (client_var st) (screen_region st).

(** An external call takes the next outcome of the script; when the script
    is over the call never returns.  [awaited] tells an awaited call of the
    BLE client from a blocking call, during which the coroutine is never
    suspended. *)
Definition external (awaited : bool) (o : op) : M pyval := fun st =>
  let r := hd Never (script st) in
  let st' := set_script st (tl (script st)) in
  match r with
  | Returns v => (Normal v, [ECall o r], st')
  | Raises cls msg => (Abort (Raise (PyExc cls msg)), [ECall o r], st')
  | Never => (Abort Hang, [ECall o r], st')
  | Sigint suspended =>
      let '(res, evs, st'') := on_sigint st' in
      (if awaited && suspended then in_event_loop res else res,
       ECall o r :: evs, st'')
  end.

Definition call (o : op) : M pyval := external false o.
Definition await (o : op) : M pyval := external true o.

(** ** The functions of the script *)

(** [time.sleep(seconds)]. *)
Definition time_sleep (seconds : Q) : M unit :=
  call (Sleep seconds) ;; ret tt.

(** [client.write_gatt_char(uuid, data)], awaited. *)
Definition write_gatt_char (client : BleakClient) (uuid : option string)
    (data : bytes) : M unit :=
  await (WriteGattChar client uuid data) ;; ret tt.

(** [bytes.fromhex(s)] as an expression that may raise [ValueError]. *)
Definition bytes_fromhex (s : string) : M bytes :=
  match fromhex s with
  | inr bs => ret bs
  | inl pos =>
      raise (PyExc "ValueError"
        ("non-hexadecimal number found in fromhex() arg at position "
           ++ NilZero.string_of_uint (Nat.to_uint pos)))
  end.

(**
[[
async def init_client(address: str) -> BleakClient:
    client =  BleakClient(address)
    print("Connecting")
    await client.connect()
    print(f"Connected to {address}")
    return client
]] *)
Definition init_client (address : string) : M (option BleakClient) :=
  let client := {| client_address := address |} in
  print "Connecting" ;;
  await (Connect client) ;;
  print ("Connected to " ++ address) ;;
  ret (Some client).

(**
[[
async def toggle_on(client: BleakClient, uuid: str) -> None:
    await client.write_gatt_char(uuid, bytes.fromhex(ON_HEX))
    print("Turned on")
]] *)
Definition toggle_on (client : BleakClient) (uuid : option string) : M unit :=
  data <- bytes_fromhex ON_HEX ;;
  write_gatt_char client uuid data ;;
  print "Turned on".

(**
[[
async def toggle_off(client: BleakClient, uuid: str) -> None:
    await client.write_gatt_char(uuid, bytes.fromhex(OFF_HEX))
    print("Turned off")
]] *)
Definition toggle_off (client : BleakClient) (uuid : option string) : M unit :=
  data <- bytes_fromhex OFF_HEX ;;
  write_gatt_char client uuid data ;;
  print "Turned off".

(**
[[
async def send_colour_to_device(client: BleakClient, uuid: str, value: str) -> None:
    await client.write_gatt_char(uuid, bytes.fromhex(f"7e070503{value}10ef"))
]] *)
Definition send_colour_to_device (client : BleakClient) (uuid : option string)
    (value : string) : M unit :=
  data <- bytes_fromhex ("7e070503" ++ value ++ "10ef")%string ;;
  write_gatt_char client uuid data.

(**
[[
async def disconnect_client(client: Optional[BleakClient] = None) -> None:
    if client is not None :
        print("Disconnecting")
        if characteristic_uuid is not None:
            print(f"charUUID: {characteristic_uuid}")
            await toggle_off(client, characteristic_uuid)
        await client.disconnect()
        print("Client Disconnected")
    print("Exited")
]] *)
Definition disconnect_client (client : option BleakClient) : M unit :=
  match client with
  | Some c =>
      print "Disconnecting" ;;
      match characteristic_uuid with
      | Some uuid =>
          print ("charUUID: " ++ uuid) ;;
          toggle_off c characteristic_uuid
      | None => ret tt
      end ;;
      await (Disconnect c) ;;
      print "Client Disconnected"
  | None => ret tt
  end ;;
  print "Exited".

(** The two nested [for] loops of [get_characteristics]. *)
Fixpoint print_characteristics (characteristics : list string) : M unit :=
  match characteristics with
  | [] => ret tt
  | uuid :: rest =>
      print ("Characteristic: " ++ uuid) ;; print_characteristics rest
  end.

Fixpoint print_services (services : list (list string)) : M unit :=
  match services with
  | [] => ret tt
  | service :: rest => print_characteristics service ;; print_services rest
  end.

(**
[[
async def get_characteristics(client: BleakClient) -> None:
    services = await client.get_services()
    for service in services:
        for characteristic in service.characteristics:
            print(f"Characteristic: {characteristic.uuid}")
    print("Please test these characteristics to identify the correct one")
    await disconnect_client(client)
]] *)
Definition get_characteristics (client : BleakClient) : M unit :=
  services <- await (GetServices client) ;;
  match services with
  | VServices l => print_services l
  | _ => raise (PyExc "TypeError" "object is not iterable")
  end ;;
  print "Please test these characteristics to identify the correct one" ;;
  disconnect_client (Some client).

(**
[[
async def on_exit(client: BleakClient) -> None:
    if client is not None:
        await disconnect_client(client)
    print("Exited")
]] *)
Definition on_exit (client : option BleakClient) : M unit :=
  match client with
  | Some _ => disconnect_client client
  | None => ret tt
  end ;;
  print "Exited".

(** The module-level statements that compute [screen_region]:
[[
screen_width, screen_height = ImageGrab.grab().size
region_left = (screen_width - region_width) // 2
region_top = (screen_height - region_height) // 2
screen_region = (region_left, region_top, region_left + region_width, region_top + region_height)
]] *)
Definition module_init : M unit :=
  img <- call (Grab None) ;;
  match img with
  | VImage screen_width screen_height =>
      let region_left := (screen_width - region_width) / 2 in
      let region_top := (screen_height - region_height) / 2 in
      fun st =>
        (Normal tt, [],
         mkState (script st) (sigint_handler st) (client_var st)
           (Some (region_left, region_top,
                  region_left + region_width, region_top + region_height)))
  | _ => raise (PyExc "AttributeError" "object has no attribute 'size'")
  end.

Definition load_screen_region : M bbox := fun st =>
  match screen_region st with
  | Some r => (Normal r, [], st)
  | None =>
      (Abort (Raise (PyExc "NameError" "name 'screen_region' is not defined")),
       [], st)
  end.

(**
[[
def get_dominant_colour() -> str:
    screenshot = ImageGrab.grab(screen_region)
    screenshot_memory.seek(0)
    screenshot_memory.truncate(0)
    screenshot.save(screenshot_memory, "PNG")
    dominant_color = fast_colorthief.get_dominant_color(screenshot_memory, quality=1)
    return '{:02x}{:02x}{:02x}'.format( *dominant_color)
]]
    The buffer [screenshot_memory] is written by [save] and read by
    [get_dominant_color] only; it stays inside these two calls. *)
Definition get_dominant_colour : M string :=
  region <- load_screen_region ;;
  call (Grab (Some region)) ;;
  call SavePng ;;
  dominant_color <- call GetDominantColor ;;
  match dominant_color with
  | VColour r g b => ret (format_02x r ++ format_02x g ++ format_02x b)%string
  | _ => raise (PyExc "TypeError" "format() argument after * must be an iterable")
  end.

(** The settle delay [time.sleep(3)] and the pause [time.sleep(0.1)]. *)
Definition settle_delay : Q := 3 # 1.
Definition loop_interval : Q := 1 # 10.

(** [not characteristic_uuid]. *)
Definition not_str (s : option string) : bool :=
  match s with
  | None | Some EmptyString => true
  | Some _ => false
  end.

(** [client = await init_client(address)]: the assignment to the variable. *)
Definition store_client (client : option BleakClient) : M unit := fun st =>
  (Normal tt, [],
   mkState (script st) (sigint_handler st) (Some client) (screen_region st)).

(** Reading [client] inside [main]. *)
Definition load_client : M (option BleakClient) := fun st =>
  match client_var st with
  | Some c => (Normal c, [], st)
  | None => (Abort (Raise UnboundLocalError_client), [], st)
  end.

(** The body of [while True] in [main]:
[[
            await send_colour_to_device(client, characteristic_uuid, get_dominant_colour())
            time.sleep(0.1)
]] *)
Definition loop_body (client : BleakClient) : M unit :=
  value <- get_dominant_colour ;;
  send_colour_to_device client characteristic_uuid value ;;
  time_sleep loop_interval.

(** The body of the [try] statement of [main]. *)
Definition main_try (fuel : nat) (address : string) : M unit :=
  client <- init_client address ;;
  store_client client ;;
  match client with
  | None =>
      raise (PyExc "TypeError"
        ("Device " ++ address
           ++ " not found. Please try again if you recently disconnected from the device"))
  | Some c =>
      (if not_str characteristic_uuid then get_characteristics c else ret tt) ;;
      time_sleep settle_delay ;;
      toggle_on c characteristic_uuid ;;
      print "Ambient Monitor Starting" ;;
      while_true fuel (loop_body c)
  end.

(** A call of [main] starts with its local variable [client] unbound. *)
Definition new_frame : M unit := fun st =>
  (Normal tt, [],
   mkState (script st) (sigint_handler st) None (screen_region st)).

(** The [except Exception as e] clause and the [finally] clause of [main]. *)
Definition main_except (e : exn) : M unit :=
  print ("Error: " ++ str_exn e).

Definition main_finally : M unit :=
  client <- load_client ;;
  match client with
  | Some _ => on_exit client
  | None => ret tt
  end.

(**
[[
async def main(address: str) -> None:
    def sigterm_handler(signum, frame): ...
    signal.signal(signal.SIGINT, sigterm_handler)
    try:
        ...
    except Exception as e:
        print(f"Error: {e}")
    finally:
        if client is not None:
            await on_exit(client)
]]
    [fuel] bounds the number of iterations of [while True]. *)
Definition main (fuel : nat) (address : string) : M unit :=
  new_frame ;;
  signal_SIGINT_sigterm_handler ;;
  try_finally (try_except (main_try fuel address) main_except) main_finally.

(** [loop.run_until_complete(coroutine)]: an exception that left the event
    loop is raised to the caller. *)
Definition run_until_complete {A} (coroutine : M A) : M A := fun st =>
  match coroutine st with
  | (Abort (LoopExit e), evs, st') => (Abort (Raise e), evs, st')
  | other => other
  end.

(**
[[
def run_main(address):
    loop = asyncio.get_event_loop()
    loop.run_until_complete(main(address))
    loop.close()
]] *)
Definition run_main (fuel : nat) (address : string) : M unit :=
  run_until_complete (main fuel address) ;;
  ret tt.

(** The script as a whole, run against a list of outcomes: the module-level
    statements, then [run_main(device_address)].  Every iteration of the loop
    takes an outcome, so one more iteration than there are outcomes is
    enough. *)
Definition program (s : list outcome) : result unit * list event * state :=
  (module_init ;; run_main (S (List.length s)) device_address) (initial_state s).

(** The exit status of the process: 0 when the script runs to its end, the
    argument of [sys.exit], 130 for an uncaught [KeyboardInterrupt] (the
    interpreter dies of SIGINT, signal 2, which a shell reports as 128 + 2),
    1 for any other uncaught exception; none while a call has not
    returned. *)
Definition exit_status {A} (r : result A) : option Z :=
  match r with
  | Normal _ => Some 0
  | Abort (Raise (SystemExit code)) | Abort (LoopExit (SystemExit code)) =>
      Some code
  | Abort (Raise KeyboardInterrupt) | Abort (LoopExit KeyboardInterrupt) =>
      Some 130
  | Abort (Raise _) | Abort (LoopExit _) => Some 1
  | Abort Hang | Abort OutOfFuel => None
  end.

(** ** Observations on a run *)

Definition result_of {A} (x : result A * list event * state) : result A :=
  fst (fst x).
Definition events_of {A} (x : result A * list event * state) : list event :=
  snd (fst x).

(** The frames that [toggle_on] and [toggle_off] send. *)
Definition on_frame : bytes := [126; 4; 4; 240; 0; 1; 255; 0; 239].
Definition off_frame : bytes := [126; 4; 4; 0; 0; 0; 255; 0; 239].

(** The frame that the loop sends for a dominant colour [(r, g, b)]: the
    string that [get_dominant_colour] formats, framed and decoded as
    [send_colour_to_device] does. *)
Definition ENCODE_COLOR (r g b : Z) : nat + bytes :=
  fromhex ("7e070503" ++ (format_02x r ++ format_02x g ++ format_02x b)
             ++ "10ef")%string.

Fixpoint bytes_eqb (a b : bytes) : bool :=
  match a, b with
  | [], [] => true
  | x :: a', y :: b' => (x =? y) && bytes_eqb a' b'
  | _, _ => false
  end.

Definition is_returns (r : outcome) : bool :=
  match r with Returns _ => true | _ => false end.

Definition is_write (e : event) : bool :=
  match e with ECall (WriteGattChar _ _ _) _ => true | _ => false end.

Definition is_off_write (e : event) : bool :=
  match e with
  | ECall (WriteGattChar _ _ data) _ => bytes_eqb data off_frame
  | _ => false
  end.

Definition is_disconnect (e : event) : bool :=
  match e with ECall (Disconnect _) _ => true | _ => false end.

Definition is_sigint (e : event) : bool :=
  match e with ECall _ (Sigint _) => true | _ => false end.

(** A run that no SIGINT reaches: [sigterm_handler] never runs, so that no
    task is queued on the event loop and the events of the coroutine are all
    that the client is asked to do. *)
Definition uninterrupted (evs : list event) : Prop :=
  existsb is_sigint evs = false.

(** The frames written to the characteristic, in order. *)
Fixpoint written (evs : list event) : list bytes :=
  match evs with
  | [] => []
  | ECall (WriteGattChar _ _ data) _ :: rest => data :: written rest
  | _ :: rest => written rest
  end.

(** The operations on the GATT connection after it is established: the
    characteristic writes and the disconnections. *)
Definition gatt_events (evs : list event) : list event :=
  filter (fun e => is_write e || is_disconnect e) evs.

(** The calls that the shutdown never makes: the screen sampling, a sleep
    and the writes of frames other than the OFF frame. *)
Definition is_loop_call (e : event) : bool :=
  match e with
  | ECall (Grab _) _ | ECall SavePng _ | ECall GetDominantColor _
  | ECall (Sleep _) _ => true
  | ECall (WriteGattChar _ _ data) _ => negb (bytes_eqb data off_frame)
  | _ => false
  end.

(** The line that [main] prints when it enters the loop. *)
Definition running : event := EPrint "Ambient Monitor Starting".

(** The coroutine ran to its end: it returned or an exception left it. *)
Definition finished {A} (r : result A) : Prop :=
  match r with
  | Normal _ | Abort (Raise _) => True
  | _ => False
  end.

(** An event after which the computation goes on: a printed line or a call
    that returned. *)
Definition is_quiet (e : event) : bool :=
  match e with
  | EPrint _ | ECall _ (Returns _) => true
  | _ => false
  end.

(** The events of the loop: its calls and, on SIGINT, the task that the
    handler creates. *)
Definition loop_event (e : event) : bool :=
  match e with
  | ECreateTask _ => true
  | _ => is_loop_call e
  end.

(** How a computation without [try] stops, and what it emits last, when the
    variable [client] holds [cv]: the program raises an exception of its own,
    a call raises, SIGINT arrives and the handler creates its task and exits,
    inside the coroutine or in the event loop, a call never returns, or the
    loop bound is used up. *)
Inductive ending (cv : option BleakClient) : list event -> abort -> Prop :=
| ending_raise e :
    is_Exception e = true -> ending cv [] (Raise e)
| ending_raises o cls msg :
    ending cv [ECall o (Raises cls msg)] (Raise (PyExc cls msg))
| ending_sigint o b :
    ending cv [ECall o (Sigint b); ECreateTask cv] (Raise (SystemExit 1))
| ending_sigint_suspended o :
    ending cv [ECall o (Sigint true); ECreateTask cv] (LoopExit (SystemExit 1))
| ending_never o :
    ending cv [ECall o Never] Hang
| ending_fuel :
    ending cv [] OutOfFuel.

(** The events of the [try] block of [main]: no OFF frame is written and
    nothing is disconnected there. *)
Definition try_event (e : event) : bool :=
  negb (is_off_write e) && negb (is_disconnect e).

(** How the [try] block stops when the connection is not established: the
    variable [client] is still unbound, so that on SIGINT the handler fails
    with [NameError] where it reads it. *)
Definition unconnected (o : outcome) : abort :=
  match o with
  | Raises cls msg => Raise (PyExc cls msg)
  | Sigint true => LoopExit NameError_client
  | Sigint false => Raise NameError_client
  | _ => Hang
  end.

(** What [on_exit(client)] emits for a client [c] and how it ends: both the
    OFF write and the disconnection return, or the OFF write does not
    return, or the disconnection does not. *)
Inductive shutdown (c : BleakClient) : list event -> result unit -> Prop :=
| shutdown_complete v v' :
    shutdown c
      [EPrint "Disconnecting";
       EPrint "charUUID: 0000fff3-0000-1000-8000-00805f9b34fb";
       ECall (WriteGattChar c characteristic_uuid off_frame) (Returns v);
       EPrint "Turned off";
       ECall (Disconnect c) (Returns v');
       EPrint "Client Disconnected"; EPrint "Exited"; EPrint "Exited"]
      (Normal tt)
| shutdown_off_stops o tail x :
    ending (Some c)
      (ECall (WriteGattChar c characteristic_uuid off_frame) o :: tail) x ->
    shutdown c
      (EPrint "Disconnecting"
       :: EPrint "charUUID: 0000fff3-0000-1000-8000-00805f9b34fb"
       :: ECall (WriteGattChar c characteristic_uuid off_frame) o :: tail)
      (Abort x)
| shutdown_disconnect_stops v o tail x :
    ending (Some c) (ECall (Disconnect c) o :: tail) x ->
    shutdown c
      (EPrint "Disconnecting"
       :: EPrint "charUUID: 0000fff3-0000-1000-8000-00805f9b34fb"
       :: ECall (WriteGattChar c characteristic_uuid off_frame) (Returns v)
       :: EPrint "Turned off"
       :: ECall (Disconnect c) o :: tail)
      (Abort x).

(** What follows the [try] block of [main] once [client] is bound, by the way
    [x] the block stopped: an [Exception] is logged and the shutdown runs; a
    [SystemExit] skips the [except] clause, the shutdown runs and the
    exception goes on unless the shutdown raised; anything else leaves the
    coroutine where it is. *)
Inductive closing (c : BleakClient) : abort -> list event -> result unit -> Prop :=
| closing_caught e fin r :
    is_Exception e = true -> shutdown c fin r ->
    closing c (Raise e) (EPrint ("Error: " ++ str_exn e) :: fin) r
| closing_uncaught e fin r :
    is_Exception e = false -> shutdown c fin r ->
    closing c (Raise e) fin
      (match r with Normal _ => Abort (Raise e) | Abort y => Abort y end)
| closing_lost x :
    match x with Raise _ => False | _ => True end ->
    closing c x [] (Abort x).

(** What [main] emits after a connection attempt that did not return. *)
Definition unconnected_log (o : outcome) : list event :=
  match o with
  | Raises _ msg => [EPrint ("Error: " ++ msg)]
  | Sigint false => [EPrint ("Error: " ++ str_exn NameError_client)]
  | _ => []
  end.

Definition unconnected_exit (o : outcome) : abort :=
  match o with
  | Raises _ _ | Sigint false => Raise UnboundLocalError_client
  | other => unconnected other
  end.

(** The start of a run whose connection is established: the settle delay
    [time.sleep(3)] is the call that follows, and when it does not return
    the [try] block writes nothing. *)
Definition settles (c : BleakClient) (address : string) (v : pyval)
    (evs : list event) : Prop :=
  exists o rest,
    evs = EPrint "Connecting" :: ECall (Connect c) (Returns v)
          :: EPrint ("Connected to " ++ address)
          :: ECall (Sleep settle_delay) o :: rest /\
    (is_returns o = false -> Forall (fun e => is_write e = false) rest).

Definition state_of {A} (x : result A * list event * state) : state := snd x.

(** ** The encodings as section 4.1 of the specification words them *)

(** The colour frame as the specification sizes it: eleven bytes, the header
    7E 07 05 03, the three channels, and 10 EF as the last two. *)
Definition eleven_byte_colour_frame (r g b : Z) : Prop :=
  exists frame,
    ENCODE_COLOR r g b = inr frame /\
    List.length frame = 11%nat /\
    firstn 4 frame = [126; 7; 5; 3] /\
    firstn 3 (skipn 4 frame) = [r; g; b] /\
    skipn 9 frame = [16; 239].

(** The OFF frame as the specification spells it: the eight bytes
    7E 04 00 00 00 FF 00 EF with padding in front or behind. *)
Definition padded_eight_byte_off_frame : Prop :=
  exists front back,
    fromhex OFF_HEX = inr (front ++ [126; 4; 0; 0; 0; 255; 0; 239] ++ back).

(** ** Sample runs *)

(** The state in which [run_main] is called once the module-level statements
    have run on a screen of 1920 x 1080 pixels. *)
Definition after_import (s : list outcome) : state :=
  mkState s false None (Some (640, 300, 1280, 780)).

(** [main(device_address)] against the outcomes [s]. *)
Definition run (s : list outcome) : result unit * list event * state :=
  main (S (List.length s)) device_address (after_import s).

Definition ok : outcome := Returns VNone.

(** The connection, the settle delay and the ON write return; the first
    iteration samples the colour (255, 0, 128). *)
Definition into_the_loop : list outcome :=
  [ok; ok; ok; ok; ok; Returns (VColour 255 0 128)].

(** The write of the first iteration fails; the shutdown goes through and
    the environment has more outcomes to offer. *)
Definition write_fails : list outcome :=
  into_the_loop ++ [Raises "BleakError" "write failed"; ok; ok; ok; ok; ok].

(** The write of the first iteration fails, and so does the OFF write. *)
Definition write_and_off_fail : list outcome :=
  into_the_loop
    ++ [Raises "BleakError" "write failed"; Raises "BleakError" "Not connected"].

(** The ON write fails, and so does the OFF write. *)
Definition on_and_off_fail : list outcome :=
  [ok; ok; Raises "BleakError" "write failed";
   Raises "BleakError" "Not connected"].

(** The connection attempt fails. *)
Definition connect_fails : list outcome :=
  [Raises "BleakError" "Device not found"; ok; ok].

(** SIGINT arrives during the settle delay; the shutdown goes through. *)
Definition sigint_while_settling : list outcome :=
  [ok; Sigint false; ok; ok].

(** SIGINT arrives during the pause of the first iteration. *)
Definition sigint_in_the_loop : list outcome :=
  into_the_loop ++ [ok; Sigint false; ok; ok].

(** ** The lifecycle as the specification words it *)

(** Section 8: the writes end with one OFF write, right before the final
    disconnection. *)
Definition off_then_disconnect_last (evs : list event) : Prop :=
  exists before c o o',
    gatt_events evs =
      before ++ [ECall (WriteGattChar c characteristic_uuid off_frame) o;
                 ECall (Disconnect c) o'] /\
    Forall (fun e => is_off_write e = false) before.

(** Section 8: after a failed write in the loop comes the pause and the next
    iteration. *)
Definition loop_survives_failed_write (evs : list event) : Prop :=
  forall pre c uuid data cls msg post,
    evs = pre ++ ECall (WriteGattChar c uuid data) (Raises cls msg) :: post ->
    In running pre -> data <> off_frame ->
    exists o, In (ECall (Sleep loop_interval) o) post.

(** Section 3: one disconnection attempt, with one OFF write before it. *)
Definition one_disconnect_after_off (evs : list event) : Prop :=
  List.length (filter is_disconnect evs) = 1%nat /\
  exists pre d post,
    evs = pre ++ d :: post /\ is_disconnect d = true /\
    List.length (filter is_off_write pre) = 1%nat.

(** Section 6: the process exits with a non-zero status. *)
Definition exits_nonzero {A} (r : result A) : Prop :=
  exists n, exit_status r = Some n /\ n <> 0.

(** Section 4.2: the settle delay has gone by when the first write is
    issued. *)
Definition settled_before_first_write (evs : list event) : Prop :=
  forall pre w post,
    evs = pre ++ w :: post -> is_write w = true ->
    Forall (fun e => is_write e = false) pre ->
    exists v, In (ECall (Sleep settle_delay) (Returns v)) pre.

(** ** The iterations of the loop *)

(** One iteration of [while True] in which every call returns: what the
    three calls of the sampler and the two calls after them returned, the
    region that was grabbed, the colour that was found and the frame that
    was written. *)
Record pass := mkPass {
  pass_region : bbox;
  pass_grabbed : pyval;
  pass_saved : pyval;
  pass_colour : Z * Z * Z;
  pass_frame : bytes;
  pass_written : pyval;
  pass_slept : pyval
}.

Definition pass_events (c : BleakClient) (p : pass) : list event :=
  let '(r, g, b) := pass_colour p in
  [ECall (Grab (Some (pass_region p))) (Returns (pass_grabbed p));
   ECall SavePng (Returns (pass_saved p));
   ECall GetDominantColor (Returns (VColour r g b));
   ECall (WriteGattChar c characteristic_uuid (pass_frame p))
     (Returns (pass_written p));
   ECall (Sleep loop_interval) (Returns (pass_slept p))].

(** The frame of a pass is the encoding of its colour. *)
Definition encoded (p : pass) : Prop :=
  let '(r, g, b) := pass_colour p in ENCODE_COLOR r g b = inr (pass_frame p).

(** The colours that the quantiser returned, in order. *)
Fixpoint sampled (evs : list event) : list (Z * Z * Z) :=
  match evs with
  | [] => []
  | ECall GetDominantColor (Returns (VColour r g b)) :: rest =>
      (r, g, b) :: sampled rest
  | _ :: rest => sampled rest
  end.

(** A sleep that returned. *)
Definition is_slept (e : event) : bool :=
  match e with ECall (Sleep _) (Returns _) => true | _ => false end.

(** An iteration that does not reach the end of its pause: no sleep
    returns, at most one colour is sampled and at most one frame is written,
    the encoding of that colour. *)
Definition incomplete (evs : list event) : Prop :=
  existsb is_slept evs = false /\
  ((written evs = [] /\ (List.length (sampled evs) <= 1)%nat) \/
   (exists r g b data,
      sampled evs = [(r, g, b)] /\ written evs = [data] /\
      ENCODE_COLOR r g b = inr data)).

(** What [main] emits from its start to the line that announces the loop,
    when the connection, the settle delay and the ON write return. *)
Definition startup (c : BleakClient) (address : string) (v0 v1 v2 : pyval)
    : list event :=
  [EPrint "Connecting"; ECall (Connect c) (Returns v0);
   EPrint ("Connected to " ++ address);
   ECall (Sleep settle_delay) (Returns v1);
   ECall (WriteGattChar c characteristic_uuid on_frame) (Returns v2);
   EPrint "Turned on"; EPrint "Ambient Monitor Starting"].

(** [frame] is the encoding of the colour [col]. *)
Definition encodes (col : Z * Z * Z) (frame : bytes) : Prop :=
  let '(r, g, b) := col in ENCODE_COLOR r g b = inr frame.

(** The loop runs twice, then the third sample cannot be written. *)
Definition two_passes : list outcome :=
  [ok; ok; ok;
   ok; ok; Returns (VColour 255 0 128); ok; ok;
   ok; ok; Returns (VColour 0 16 255); ok; ok;
   ok; ok; Returns (VColour 1 2 3); Raises "BleakError" "write failed";
   ok; ok].

(** The screen grab of the second iteration fails. *)
Definition grab_fails : list outcome :=
  [ok; ok; ok;
   ok; ok; Returns (VColour 255 0 128); ok; ok;
   Raises "OSError" "screen grab failed"; ok; ok].

(** ** Strings of hexadecimal digits *)

(** A string that holds hexadecimal digits only. *)
Fixpoint all_hex (s : string) : bool :=
  match s with
  | EmptyString => true
  | String c rest =>
      match hex_val c with
      | Some _ => negb (is_space c) && all_hex rest
      | None => false
      end
  end.

(** * The command encoder *)

Section Encoder.

Lemma bytes_eqb_eq (a b : bytes) : bytes_eqb a b = true <-> a = b.
Proof.
  revert b; induction a as [|x a IH]; intros [|y b]; simpl;
    try (split; [discriminate | congruence]); try tauto.
  rewrite andb_true_iff, Z.eqb_eq, IH.
  split; [intros [-> ->]; reflexivity | intros H; inversion H; auto].
Qed.

Lemma fromhex_ON_HEX : fromhex ON_HEX = inr on_frame.
Proof. reflexivity. Qed.

Lemma fromhex_OFF_HEX : fromhex OFF_HEX = inr off_frame.
Proof. reflexivity. Qed.

Lemma bytes_fromhex_ON_HEX : bytes_fromhex ON_HEX = ret on_frame.
Proof. reflexivity. Qed.

Lemma bytes_fromhex_OFF_HEX : bytes_fromhex OFF_HEX = ret off_frame.
Proof. reflexivity. Qed.

(** A nibble is one of sixteen values. *)
Lemma nibble_cases (d : Z) :
  0 <= d < 16 ->
  In d [0; 1; 2; 3; 4; 5; 6; 7; 8; 9; 10; 11; 12; 13; 14; 15].
Proof.
  intros H. simpl.
  assert (d = 0 \/ d = 1 \/ d = 2 \/ d = 3 \/ d = 4 \/ d = 5 \/ d = 6 \/ d = 7
          \/ d = 8 \/ d = 9 \/ d = 10 \/ d = 11 \/ d = 12 \/ d = 13 \/ d = 14
          \/ d = 15) by lia.
  intuition auto.
Qed.

Lemma hex_digit_val (d : Z) :
  0 <= d < 16 ->
  hex_val (hex_digit d) = Some d /\ is_space (hex_digit d) = false.
Proof.
  intros H. apply nibble_cases in H. simpl in H.
  repeat (destruct H as [<- | H]; [split; reflexivity|]).
  contradiction.
Qed.

(** One channel: two lower-case digits, the high nibble first. *)
Lemma format_02x_byte (n : Z) :
  0 <= n <= 255 ->
  format_02x n = String (hex_digit (n / 16)) (String (hex_digit (n mod 16)) "").
Proof.
  intros H.
  assert (Hn : n = Z.of_nat (Z.to_nat n)) by lia.
  assert (Hlt : (Z.to_nat n < 256)%nat) by lia.
  revert Hn Hlt. generalize (Z.to_nat n) as k. intros k -> Hlt.
  assert (Hall : forallb (fun k =>
            String.eqb (format_02x (Z.of_nat k))
              (String (hex_digit (Z.of_nat k / 16))
                 (String (hex_digit (Z.of_nat k mod 16)) "")))
            (seq 0 256) = true) by (vm_compute; reflexivity).
  rewrite forallb_forall in Hall.
  apply String.eqb_eq, Hall, in_seq. lia.
Qed.

(** Decoding what [format_02x] wrote gives the channel back. *)
Lemma fromhex_at_format_02x (n : Z) (pos : nat) (rest : string) :
  0 <= n <= 255 ->
  fromhex_at pos (format_02x n ++ rest)%string =
  match fromhex_at (S (S pos)) rest with
  | inl p => inl p
  | inr bs => inr (n :: bs)
  end.
Proof.
  intros H. rewrite (format_02x_byte n H).
  assert (Hhi : 0 <= n / 16 < 16)
    by (split; [apply Z.div_pos | apply Z.div_lt_upper_bound]; lia).
  assert (Hlo : 0 <= n mod 16 < 16) by (apply Z.mod_pos_bound; lia).
  destruct (hex_digit_val _ Hhi) as [Hv1 Hs1].
  destruct (hex_digit_val _ Hlo) as [Hv2 _].
  cbn [append fromhex_at]. rewrite Hs1, Hv1, Hv2.
  replace (16 * (n / 16) + n mod 16) with n
    by (rewrite <- Z.div_mod; lia).
  reflexivity.
Qed.

(** The four constant bytes in front of the colour. *)
Lemma fromhex_at_header (rest : string) :
  fromhex_at 0 ("7e070503" ++ rest)%string =
  match fromhex_at 8 rest with
  | inl p => inl p
  | inr bs => inr (126 :: 7 :: 5 :: 3 :: bs)
  end.
Proof.
  cbn -[Z.mul Z.add]. destruct (fromhex_at 8 rest); reflexivity.
Qed.

Lemma ENCODE_COLOR_bytes (r g b : Z) :
  0 <= r <= 255 -> 0 <= g <= 255 -> 0 <= b <= 255 ->
  ENCODE_COLOR r g b = inr [126; 7; 5; 3; r; g; b; 16; 239].
Proof.
  intros Hr Hg Hb. unfold ENCODE_COLOR, fromhex.
  rewrite fromhex_at_header.
  assert (Happ : forall a b c : string,
             ((a ++ b) ++ c = a ++ (b ++ c))%string)
    by (intros a; induction a; intros; simpl; congruence).
  rewrite !Happ.
  rewrite !fromhex_at_format_02x by assumption.
  reflexivity.
Qed.

(** Every frame of the colour family starts with 7E 07 05 03, whatever the
    string [value] is. *)
Lemma colour_frame_header (value : string) (data : bytes) :
  fromhex ("7e070503" ++ value ++ "10ef")%string = inr data ->
  exists rest, data = 126 :: 7 :: 5 :: 3 :: rest.
Proof.
  unfold fromhex.
  rewrite fromhex_at_header.
  destruct (fromhex_at 8 (value ++ "10ef")%string) as [p|bs]; [discriminate|].
  intros H; inversion H; eauto.
Qed.

End Encoder.

(** * Laws of the monad *)

Lemma bind_ret_l {A B} (a : A) (k : A -> M B) (st : state) :
  bind (ret a) k st = k a st.
Proof.
  unfold bind, ret. destruct (k a st) as [[r evs] st']. reflexivity.
Qed.


(** * Running the model by cases *)

Arguments fromhex : simpl never.
Arguments format_02x : simpl never.
Arguments String.append : simpl never.

(** Case analysis on whatever blocks the evaluation of a run [H]: the next
    outcome of the script, the value a call returned, a decoded string. *)
Ltac exec H :=
  unfold bind, ret, raise, print, external, on_sigint, sigterm_handler,
    load_free_client, create_task_on_exit, sys_exit, in_event_loop,
    set_script in H;
  cbn in H;
  repeat (match type of H with
          | context [hd Never ?s] =>
              is_var s; destruct s as [|[?v|?cls ?msg|[|]|] ?s]
          | context [match ?v with
                     | VNone => _ | VImage _ _ => _
                     | VColour _ _ _ => _ | VServices _ => _ end] =>
              is_var v; destruct v
          | context [match fromhex ?x with inl _ => _ | inr _ => _ end] =>
              let E := fresh "Hhex" in destruct (fromhex x) eqn:E
          end; cbn in H).

(** Splitting a list of events, given in full, [k] events before its end. *)
Ltac split_events k :=
  match goal with
  | |- exists x q last, Abort ?a = Abort x /\ ?l = q ++ last /\ _ =>
      let n := eval lazy in (List.length l - k)%nat in
      let q := eval lazy [firstn] in (firstn n l) in
      let last := eval lazy [skipn] in (skipn n l) in
      exists a, q, last
  end.

(** A run that stops: the quiet events, then an ending of [k] events. *)
Ltac stop_with k :=
  split_events k;
  split; [reflexivity|]; split; [reflexivity|];
  split; [repeat (constructor; try reflexivity)|];
  split; [constructor; reflexivity || idtac | ].

Ltac all_events := repeat (constructor; try reflexivity).

(** * The loop *)

Lemma loop_body_cases (c : BleakClient) (st : state) r evs st' :
  loop_body c st = (r, evs, st') ->
  sigint_handler st = true ->
  client_var st = Some (Some c) ->
  sigint_handler st' = true /\ client_var st' = Some (Some c) /\
  Forall (fun e => loop_event e = true) evs /\
  ((r = Normal tt /\ Forall (fun e => is_quiet e = true) evs /\
    (List.length (script st') < List.length (script st))%nat) \/
   (exists x quiet_evs last,
      r = Abort x /\ evs = quiet_evs ++ last /\
      Forall (fun e => is_quiet e = true) quiet_evs /\
      ending (Some c) last x /\ x <> OutOfFuel)).
Proof.
  destruct st as [s h cv reg]. cbn [sigint_handler client_var script].
  intros Hrun -> ->.
  unfold loop_body, get_dominant_colour, send_colour_to_device, time_sleep,
    write_gatt_char, call, await, load_screen_region, bytes_fromhex in Hrun.
  destruct reg as [reg|]; exec Hrun; inversion Hrun; subst; clear Hrun.
  all: cbn [sigint_handler client_var script].
  all: split; [reflexivity|]; split; [reflexivity|].
  all: try match goal with
           | H : fromhex _ = inr _ |- _ =>
               apply colour_frame_header in H; destruct H as [? ->]
           end.
  all: split; [all_events|].
  all: first
         [ left; split; [reflexivity|]; split; [all_events | cbn; lia]
         | right; stop_with 0%nat; discriminate
         | right; stop_with 1%nat; discriminate
         | right; stop_with 2%nat; discriminate ].
Qed.

(** The loop never returns: it emits quiet events of the loop, then stops
    with an ending.  With more fuel than outcomes it does not stop for lack
    of fuel. *)
Lemma while_true_cases (fuel : nat) (c : BleakClient) :
  forall st r evs st',
    while_true fuel (loop_body c) st = (r, evs, st') ->
    sigint_handler st = true ->
    client_var st = Some (Some c) ->
    sigint_handler st' = true /\ client_var st' = Some (Some c) /\
    Forall (fun e => loop_event e = true) evs /\
    exists x quiet_evs last,
      r = Abort x /\ evs = quiet_evs ++ last /\
      Forall (fun e => is_quiet e = true) quiet_evs /\
      ending (Some c) last x /\
      ((List.length (script st) < fuel)%nat -> x <> OutOfFuel).
Proof.
  induction fuel as [|fuel IH]; intros st r evs st' Hrun Hh Hc.
  - inversion Hrun; subst. repeat split; auto.
    exists OutOfFuel, [], []. repeat split; auto using ending_fuel. lia.
  - cbn [while_true] in Hrun. unfold bind in Hrun.
    destruct (loop_body c st) as [[rb eb] stb] eqn:Hb.
    destruct (loop_body_cases _ _ _ _ _ Hb Hh Hc)
      as (Hh1 & Hc1 & Hev & [(-> & Hq & Hlen) | (x & q & last & -> & -> & Hq & Hend & Hx)]).
    + destruct (while_true fuel (loop_body c) stb) as [[r2 e2] st2] eqn:H2.
      inversion Hrun; subst; clear Hrun.
      destruct (IH _ _ _ _ H2 Hh1 Hc1)
        as (Hh2 & Hc2 & Hev2 & x & q & last & -> & -> & Hq2 & Hend & Hx).
      repeat split; auto.
      * apply Forall_app; auto.
      * exists x, (eb ++ q), last. rewrite app_assoc.
        repeat split; auto.
        -- apply Forall_app; auto.
        -- intros Hlt. apply Hx. lia.
    + inversion Hrun; subst; clear Hrun.
      repeat split; auto.
      exists x, q, last. repeat split; auto.
Qed.

(** * The [try] block of [main] *)

Arguments while_true : simpl never.
Arguments loop_body : simpl never.

Lemma try_event_loop_event (e : event) :
  loop_event e = true -> try_event e = true.
Proof.
  destruct e as [line|[]|]; try discriminate; try reflexivity.
  unfold loop_event, try_event; simpl. intros ->. reflexivity.
Qed.

(** The settle delay is the call that follows the connection. *)
Ltac settled :=
  eexists; eexists; split; [reflexivity|];
  intros Hret; first [discriminate Hret | all_events].

Lemma main_try_cases (fuel : nat) (address : string) st r evs st' :
  main_try fuel address st = (r, evs, st') ->
  sigint_handler st = true ->
  client_var st = None ->
  let c := {| client_address := address |} in
  sigint_handler st' = true /\
  ((exists o,
      hd Never (script st) = o /\ is_returns o = false /\
      client_var st' = None /\
      evs = [EPrint "Connecting"; ECall (Connect c) o] /\
      r = Abort (unconnected o)) \/
   (exists v,
      hd Never (script st) = Returns v /\
      client_var st' = Some (Some c) /\
      exists x quiet_evs last,
        r = Abort x /\ evs = quiet_evs ++ last /\
        Forall (fun e => is_quiet e = true) quiet_evs /\
        ending (Some c) last x /\
        Forall (fun e => try_event e = true) evs /\
        In (ECall (Connect c) (Returns v)) quiet_evs /\
        settles c address v evs /\
        ((List.length (script st) < fuel)%nat -> x <> OutOfFuel))).
Proof.
  destruct st as [s h cv reg]. cbn [sigint_handler client_var script].
  intros Hrun -> ->. set (c := {| client_address := address |}) in *.
  unfold main_try, init_client, store_client, time_sleep, toggle_on,
    write_gatt_char, call, await, bytes_fromhex in Hrun.
  change (fromhex ON_HEX) with (@inr nat bytes on_frame) in Hrun.
  exec Hrun.
  all: try (destruct (while_true _ _ _) as [[rl el] stl] eqn:Hloop;
            apply while_true_cases in Hloop; [|reflexivity..];
            destruct Hloop
              as (Hh & Hc & Hev & x & q & last & -> & -> & Hq & Hend & Hx)).
  all: inversion Hrun; subst; clear Hrun.
  all: split; [assumption || reflexivity|].
  all: try (left; eexists; repeat split; reflexivity).
  all: right; eexists; split; [reflexivity|]; split; [assumption || reflexivity|].
  all: try (first [stop_with 0%nat | stop_with 1%nat | stop_with 2%nat];
            split; [all_events|]; split; [cbn; tauto|];
            split; [settled | discriminate]).
  match goal with
  | |- exists x0 q0 last0, _ = _ /\ ?e1 :: ?e2 :: ?e3 :: ?e4 :: ?e5 :: ?e6 :: ?e7 :: _ = _ /\ _ =>
      exists x, ([e1; e2; e3; e4; e5; e6; e7] ++ q), last
  end.
  split; [reflexivity|]. split; [reflexivity|].
  split; [apply Forall_app; split; [all_events | assumption]|].
  split; [assumption|].
  split.
  - change (Forall (fun e => try_event e = true)
              ([EPrint "Connecting"; ECall (Connect c) (Returns v);
                EPrint ("Connected to " ++ address);
                ECall (Sleep settle_delay) (Returns v0);
                ECall (WriteGattChar c characteristic_uuid on_frame) (Returns v1);
                EPrint "Turned on"; EPrint "Ambient Monitor Starting"]
                 ++ (q ++ last))).
    apply Forall_app; split; [all_events|].
    eapply Forall_impl; [|exact Hev]. apply try_event_loop_event.
  - split; [cbn; tauto|]. split; [settled|].
    intros Hlt. apply Hx. cbn in *. lia.
Qed.

(** * The [finally] clause and [main] as a whole *)

Lemma main_finally_cases (c : BleakClient) st r evs st' :
  main_finally st = (r, evs, st') ->
  sigint_handler st = true ->
  client_var st = Some (Some c) ->
  shutdown c evs r.
Proof.
  destruct st as [s h cv reg]. cbn [sigint_handler client_var script].
  intros Hrun -> ->.
  unfold main_finally, load_client, on_exit, disconnect_client, toggle_off,
    write_gatt_char, await, bytes_fromhex in Hrun.
  change (fromhex OFF_HEX) with (@inr nat bytes off_frame) in Hrun.
  exec Hrun.
  all: inversion Hrun; subst; clear Hrun.
  all: first [ apply shutdown_complete
             | apply shutdown_off_stops; constructor
             | apply shutdown_disconnect_stops; constructor ].
Qed.

Lemma main_cases (fuel : nat) (address : string) st r evs st' :
  main fuel address st = (r, evs, st') ->
  let c := {| client_address := address |} in
  (exists o,
     hd Never (script st) = o /\ is_returns o = false /\
     evs = EPrint "Connecting" :: ECall (Connect c) o :: unconnected_log o /\
     r = Abort (unconnected_exit o)) \/
  (exists v x quiet_evs last fin,
     hd Never (script st) = Returns v /\
     evs = quiet_evs ++ last ++ fin /\
     Forall (fun e => is_quiet e = true) quiet_evs /\
     ending (Some c) last x /\
     Forall (fun e => try_event e = true) (quiet_evs ++ last) /\
     In (ECall (Connect c) (Returns v)) quiet_evs /\
     settles c address v (quiet_evs ++ last) /\
     closing c x fin r /\
     ((List.length (script st) < fuel)%nat -> x <> OutOfFuel)).
Proof.
  intros Hrun c.
  unfold main, new_frame, signal_SIGINT_sigterm_handler in Hrun.
  unfold bind at 1 2 in Hrun. cbn beta iota in Hrun.
  cbn [script client_var screen_region sigint_handler] in Hrun.
  unfold try_finally, try_except in Hrun.
  destruct (main_try fuel address _) as [[rt et] st1] eqn:Htry.
  apply main_try_cases in Htry; [|reflexivity..].
  cbn [script] in Htry. fold c in Htry.
  destruct Htry as (Hh & [(o & Ho & Hret & Hc & -> & ->) |
    (v & Hv & Hc & x & q & last & -> & -> & Hq & Hend & Hev & Hin & Hset & Hx)]).
  - left. exists o. split; [assumption|]. split; [assumption|].
    destruct st1 as [s1 h1 cv1 reg1]. cbn in Hc, Hh. subst cv1 h1.
    destruct o as [v|cls msg|[|]|]; try discriminate Hret;
      cbn in Hrun; inversion Hrun; subst; split; reflexivity.
  - right. exists v, x, q, last.
    pose proof Hend as Hend'.
    destruct Hend' as [e He|o cls msg|o b|o|o|].
    1: rewrite He in Hrun.
    1-3: cbn [is_Exception] in Hrun; unfold main_except, print in Hrun;
      destruct (main_finally st1) as [[rf ef] st2] eqn:Hf;
      pose proof (main_finally_cases c _ _ _ _ Hf Hh Hc) as Hsd.
    1-2: match type of Hrun with
         | context [EPrint ?line] => exists (EPrint line :: ef)
         end.
    3: exists ef.
    4-6: exists [].
    1-3: destruct rf as [[]|y].
    all: inversion Hrun; subst; clear Hrun.
    all: split; [assumption|].
    all: split; [rewrite <- ?app_assoc; reflexivity|].
    all: do 5 (split; [assumption|]).
    all: split; [|assumption].
    1-4: apply closing_caught; auto.
    1: apply (closing_uncaught c (SystemExit 1) ef (Normal tt)); auto.
    1: apply (closing_uncaught c (SystemExit 1) ef (Abort y)); auto.
    all: apply closing_lost; exact I.
Qed.

(** * Facts on lists of events *)

(** Where an event that does not satisfy [P] sits in [q ++ rest] when all of
    [q] satisfies [P]. *)
Lemma split_behind {A} (P : A -> Prop) (q rest pre : list A) (w : A)
    (post : list A) :
  q ++ rest = pre ++ w :: post ->
  Forall P q -> ~ P w ->
  exists l, pre = q ++ l /\ rest = l ++ w :: post.
Proof.
  revert pre. induction q as [|a q IH]; intros pre Heq Hq Hw.
  - exists pre. auto.
  - inversion Hq as [|? ? Ha Hq']; subst.
    destruct pre as [|b pre]; simpl in Heq; inversion Heq; subst.
    + contradiction.
    + destruct (IH pre H1 Hq' Hw) as (l & -> & ->). exists l. auto.
Qed.

Lemma gatt_events_app (l1 l2 : list event) :
  gatt_events (l1 ++ l2) = gatt_events l1 ++ gatt_events l2.
Proof. apply filter_app. Qed.

Lemma gatt_events_try (evs : list event) :
  Forall (fun e => try_event e = true) evs ->
  Forall (fun e => is_off_write e = false /\ is_disconnect e = false)
    (gatt_events evs).
Proof.
  intros H. induction H as [|e evs He _ IH]; simpl; [constructor|].
  destruct (is_write e || is_disconnect e); [|assumption].
  constructor; [|assumption].
  unfold try_event in He. apply andb_true_iff in He as [H1 H2].
  split; apply negb_true_iff; assumption.
Qed.

Lemma try_event_split (e : event) :
  try_event e = true -> is_off_write e = false /\ is_disconnect e = false.
Proof.
  unfold try_event. intros He. apply andb_true_iff in He as [H1 H2].
  split; apply negb_true_iff; assumption.
Qed.

(** * The shutdown sequence *)

(** The GATT operations of a shutdown: the OFF write, then the
    disconnection when the write returned. *)
Lemma shutdown_gatt (c : BleakClient) fin rf :
  shutdown c fin rf ->
  exists o after,
    gatt_events fin =
      ECall (WriteGattChar c characteristic_uuid off_frame) o :: after /\
    ((exists v o', o = Returns v /\ after = [ECall (Disconnect c) o']) \/
     (is_returns o = false /\ after = [])).
Proof.
  intros [v v'|o tail x Hend|v o tail x Hend].
  - eexists; eexists; split; [reflexivity|].
    left; do 2 eexists; split; reflexivity.
  - inversion Hend; subst;
      (eexists; eexists; split; [reflexivity|]; right; split; reflexivity).
  - inversion Hend; subst;
      (eexists; eexists; split; [reflexivity|];
       left; do 2 eexists; split; reflexivity).
Qed.

(** A shutdown writes the OFF frame only and makes no call of the loop. *)
Lemma shutdown_calls (c : BleakClient) fin rf :
  shutdown c fin rf ->
  Forall (fun e => is_loop_call e = false /\
                   (is_write e = true -> is_off_write e = true)) fin.
Proof.
  intros [v v'|o tail x Hend|v o tail x Hend].
  2-3: inversion Hend; subst.
  all: repeat (constructor; [split; [reflexivity | intros; first [reflexivity | discriminate]]|]).
  all: constructor.
Qed.

(** A shutdown that returns made both calls; one that raises stopped at a
    call that did not return. *)
Lemma shutdown_finished (c : BleakClient) fin rf :
  shutdown c fin rf -> finished rf ->
  rf = Normal tt \/ exists e, rf = Abort (Raise e).
Proof.
  intros [v v'|o tail x Hend|v o tail x Hend] Hf; auto.
  all: destruct x; try contradiction; eauto.
Qed.

(** What the [except] and [finally] clauses leave on the connection when the
    coroutine runs to its end. *)
Lemma closing_gatt (c : BleakClient) x fin r :
  closing c x fin r -> finished r ->
  exists o after,
    gatt_events fin =
      ECall (WriteGattChar c characteristic_uuid off_frame) o :: after /\
    ((exists v o', o = Returns v /\ after = [ECall (Disconnect c) o']) \/
     (is_returns o = false /\ after = [])).
Proof.
  intros [e fin' rf He Hsd|e fin' rf He Hsd|y Hy] Hfin.
  - apply shutdown_gatt in Hsd. exact Hsd.
  - apply shutdown_gatt in Hsd. exact Hsd.
  - destruct y; contradiction.
Qed.

Lemma closing_calls (c : BleakClient) x fin r :
  closing c x fin r ->
  Forall (fun e => is_loop_call e = false /\
                   (is_write e = true -> is_off_write e = true)) fin.
Proof.
  intros [e fin' rf He Hsd|e fin' rf He Hsd|y Hy].
  - constructor; [split; [reflexivity|discriminate]|].
    eapply shutdown_calls; eassumption.
  - eapply shutdown_calls; eassumption.
  - constructor.
Qed.

(** The shape of the GATT operations of a run whose connection is
    established and whose coroutine runs to its end. *)
Lemma connected_run_gatt (c : BleakClient) q last x fin r :
  Forall (fun e => try_event e = true) (q ++ last) ->
  closing c x fin r -> finished r ->
  exists before o after,
    gatt_events (q ++ last ++ fin) =
      before ++ ECall (WriteGattChar c characteristic_uuid off_frame) o :: after /\
    Forall (fun e => is_off_write e = false /\ is_disconnect e = false) before /\
    ((exists v o', o = Returns v /\ after = [ECall (Disconnect c) o']) \/
     (is_returns o = false /\ after = [])).
Proof.
  intros Htry Hclo Hfin.
  destruct (closing_gatt _ _ _ _ Hclo Hfin) as (o & after & Hg & Hafter).
  exists (gatt_events (q ++ last)), o, after.
  rewrite app_assoc, gatt_events_app, Hg.
  split; [reflexivity|]. split; [|assumption].
  apply gatt_events_try; assumption.
Qed.

(** [main] after a connection attempt that did not return: nothing is
    written and the loop is not entered. *)
Lemma unconnected_events (c : BleakClient) (o : outcome) :
  let evs := EPrint "Connecting" :: ECall (Connect c) o :: unconnected_log o in
  Forall (fun e => is_write e = false) evs /\ ~ In running evs /\
  (forall v, ~ In (ECall (Connect c) (Returns v)) evs \/ is_returns o = true).
Proof.
  destruct o as [v|cls msg|[|]|]; cbn; (split; [all_events|split]).
  all: try (intros v'; first [right; reflexivity | left]).
  all: intros H; decompose [or] H; try discriminate; try contradiction.
Qed.

(** A write that the [except] and [finally] clauses make is a write of the
    OFF frame. *)
Lemma closing_write_is_off (c : BleakClient) x fin r l c' uuid data o post :
  closing c x fin r ->
  fin = l ++ ECall (WriteGattChar c' uuid data) o :: post ->
  data = off_frame.
Proof.
  intros Hclo Heq. pose proof (closing_calls _ _ _ _ Hclo) as Hall.
  rewrite Heq in Hall. apply Forall_app in Hall as [_ Hall].
  inversion Hall as [|? ? [_ Hw] _]; subst.
  apply bytes_eqb_eq. apply Hw. reflexivity.
Qed.

Lemma quiet_no_sigint (q : list event) :
  Forall (fun e => is_quiet e = true) q -> existsb is_sigint q = false.
Proof.
  induction 1 as [|e q He _ IH]; [reflexivity|]. simpl. rewrite IH.
  destruct e as [line|o [| | |]|]; try discriminate He; reflexivity.
Qed.

(** A shutdown that raises makes the process exit with status 1. *)
Lemma shutdown_raise_exit (c : BleakClient) fin e :
  shutdown c fin (Abort (Raise e)) ->
  exit_status (@Abort unit (Raise e)) = Some 1.
Proof.
  intros H. inversion H as [|o tail x Hend|v o tail x Hend]; subst;
    inversion Hend; subst; reflexivity.
Qed.

(** [run_main] exits as the coroutine does. *)
Lemma run_main_exit fuel address st r evs st' :
  main fuel address st = (r, evs, st') ->
  exit_status (result_of (run_main fuel address st)) = exit_status r /\
  events_of (run_main fuel address st) = evs.
Proof.
  intros Hrun. unfold run_main, run_until_complete, bind, ret.
  rewrite Hrun.
  destruct r as [[]|[e|e| |]]; cbn; rewrite ?app_nil_r; split; reflexivity.
Qed.

(** * Fuel *)

Lemma shutdown_has_fuel (c : BleakClient) fin rf :
  shutdown c fin rf -> rf <> Abort OutOfFuel.
Proof.
  intros [v v'|o tail x Hend|v o tail x Hend]; [discriminate| |];
    inversion Hend; discriminate.
Qed.

(** With more fuel than there are outcomes, [main] does not stop for lack of
    fuel: it returns, raises, leaves the event loop or waits for a call. *)
Lemma main_has_fuel fuel address st r evs st' :
  main fuel address st = (r, evs, st') ->
  (List.length (script st) < fuel)%nat ->
  r <> Abort OutOfFuel.
Proof.
  intros Hrun Hlt.
  destruct (main_cases _ _ _ _ _ _ Hrun)
    as [(o & _ & _ & _ & ->) |
        (v & x & q & last & fin & _ & _ & _ & _ & _ & _ & _ & Hclo & Hx)].
  - destruct o as [w|cls msg|[|]|]; discriminate.
  - destruct Hclo as [e fin' rf He Hsd|e fin' rf He Hsd|y Hy].
    + exact (shutdown_has_fuel _ _ _ Hsd).
    + pose proof (shutdown_has_fuel _ _ _ Hsd) as Hrf.
      destruct rf as [[]|y]; [discriminate|exact Hrf].
    + intros H. inversion H as [Hy']. exact (Hx Hlt Hy').
Qed.

(** The script as a whole never stops for lack of fuel. *)
Lemma program_has_fuel (s : list outcome) :
  result_of (program s) <> Abort OutOfFuel.
Proof.
  unfold program, bind.
  destruct (module_init (initial_state s)) as [[r0 e0] st0] eqn:Hinit.
  assert (Hlen : (List.length (script st0) <= List.length s)%nat /\
                 r0 <> Abort OutOfFuel).
  { unfold module_init, call in Hinit. unfold initial_state in Hinit.
    exec Hinit; inversion Hinit; subst; cbn; split;
      first [lia | discriminate]. }
  destruct Hlen as [Hlen Hr0].
  destruct r0 as [[]|x0]; [|exact Hr0].
  unfold run_main, bind, run_until_complete, ret.
  destruct (main _ _ st0) as [[r1 e1] st1] eqn:Hmain.
  apply main_has_fuel in Hmain; [|lia].
  destruct r1 as [[]|[e|e| |]]; cbn; try discriminate. exact Hmain.
Qed.

(** * Further facts on the model *)

(** [get_dominant_colour] returns the string that [ENCODE_COLOR] frames: when
    the three calls of the sampler return and the quantiser yields
    [(r, g, b)], the result is the three channels formatted by ['{:02x}']. *)
Lemma get_dominant_colour_value (st : state) region v1 v2 r g b s :
  screen_region st = Some region ->
  script st = Returns v1 :: Returns v2 :: Returns (VColour r g b) :: s ->
  get_dominant_colour st =
  (Normal (format_02x r ++ format_02x g ++ format_02x b)%string,
   [ECall (Grab (Some region)) (Returns v1); ECall SavePng (Returns v2);
    ECall GetDominantColor (Returns (VColour r g b))],
   set_script st s).
Proof.
  destruct st as [s0 h cv reg]. cbn [screen_region script].
  intros -> ->. reflexivity.
Qed.

(** SIGINT while the coroutine is suspended in an awaited write: the handler
    queues its task and [SystemExit(1)] leaves the event loop; the coroutine
    stays where it is, so that neither the OFF write nor the disconnection is
    issued by the time [run_until_complete] raises, and the exit status is
    1. *)
Example sigint_while_suspended :
  let x := run (into_the_loop ++ [Sigint true; ok; ok]) in
  result_of x = Abort (LoopExit (SystemExit 1)) /\
  exit_status (result_of x) = Some 1 /\
  filter is_off_write (events_of x) = [] /\
  filter is_disconnect (events_of x) = [] /\
  In (ECreateTask (Some {| client_address := device_address |})) (events_of x).
Proof.
  cbv zeta. repeat split; try (vm_compute; reflexivity).
  vm_compute. tauto.
Qed.

(** Where SIGINT sits in the last events of a computation without [try]:
    it is the first of them, and the task of the handler is all that
    follows. *)
Lemma ending_sigint_at cv l x pre o b post :
  ending cv l x -> l = pre ++ ECall o (Sigint b) :: post ->
  pre = [] /\ post = [ECreateTask cv] /\
  (x = Raise (SystemExit 1) \/ x = LoopExit (SystemExit 1)).
Proof.
  intros Hend Heq.
  destruct Hend; destruct pre as [|e1 [|e2 [|e3 pre]]];
    try discriminate Heq; inversion Heq; subst; auto.
Qed.

(** SIGINT during the shutdown interrupts the OFF write or the
    disconnection and stops the shutdown: the handler queues its task and
    nothing else follows. *)
Lemma shutdown_sigint_at (c : BleakClient) f rf pre o b post :
  shutdown c f rf -> f = pre ++ ECall o (Sigint b) :: post ->
  post = [ECreateTask (Some c)] /\ try_event (ECall o (Sigint b)) = false.
Proof.
  intros [v v'|o' tail x Hend|v o' tail x Hend] Heq.
  - exfalso.
    assert (Hin : In (ECall o (Sigint b)) (pre ++ ECall o (Sigint b) :: post))
      by (apply in_or_app; right; left; reflexivity).
    rewrite <- Heq in Hin. cbn in Hin.
    decompose [or] Hin; try discriminate; contradiction.
  - destruct pre as [|e1 [|e2 pre]]; try discriminate Heq.
    inversion Heq as [[H1 H2 H3]].
    destruct (ending_sigint_at _ _ _ _ _ _ _ Hend H3) as (-> & -> & _).
    inversion H3; subst. split; reflexivity.
  - destruct pre as [|e1 [|e2 [|e3 [|e4 pre]]]]; try discriminate Heq.
    inversion Heq as [[H1 H2 H3 H4 H5]].
    destruct (ending_sigint_at _ _ _ _ _ _ _ Hend H5) as (-> & -> & _).
    inversion H5; subst. split; reflexivity.
Qed.

Lemma closing_sigint_at (c : BleakClient) x fin r pre o b post :
  closing c x fin r -> fin = pre ++ ECall o (Sigint b) :: post ->
  post = [ECreateTask (Some c)] /\ try_event (ECall o (Sigint b)) = false.
Proof.
  intros [e fin' rf He Hsd|e fin' rf He Hsd|y Hy] Heq.
  - destruct pre as [|e1 pre]; [discriminate Heq|].
    inversion Heq as [[H1 H2]].
    exact (shutdown_sigint_at _ _ _ _ _ _ _ Hsd H2).
  - exact (shutdown_sigint_at _ _ _ _ _ _ _ Hsd Heq).
  - destruct pre; discriminate Heq.
Qed.

(** A shutdown attempts the OFF write. *)
Lemma shutdown_off_write (c : BleakClient) fin rf :
  shutdown c fin rf ->
  exists o, In (ECall (WriteGattChar c characteristic_uuid off_frame) o) fin.
Proof.
  intros [v v'|o tail x Hend|v o tail x Hend];
    eexists; right; right; left; reflexivity.
Qed.

(** X10: once [client] is bound, every SIGINT makes the handler queue
    [on_exit(client)] as a task of its own on the event loop: the creation
    of the task follows each SIGINT directly.  When the signal interrupts a
    call of the [try] block and the coroutine runs to its end, the [finally]
    clause of [main] goes on to run [on_exit(client)] by itself and attempts
    its OFF write, so that [on_exit(client)] is started twice for the same
    client; when the signal interrupts the OFF write or the disconnection of
    the shutdown, the coroutine does nothing more. *)
Theorem sigint_queues_on_exit fuel address st r evs st' v pre o b post :
  let c := {| client_address := address |} in
  main fuel address st = (r, evs, st') ->
  hd Never (script st) = Returns v ->
  evs = pre ++ ECall o (Sigint b) :: post ->
  exists rest,
    post = ECreateTask (Some c) :: rest /\
    (try_event (ECall o (Sigint b)) = true -> finished r ->
     exists o',
       In (ECall (WriteGattChar c characteristic_uuid off_frame) o') rest) /\
    (try_event (ECall o (Sigint b)) = false -> rest = []).
Proof.
  intros c Hrun Hv Heq.
  destruct (main_cases _ _ _ _ _ _ Hrun)
    as [(o' & Ho & Hret & _) |
        (v' & x & q & last & fin & _ & Hevs & Hq & Hend & Htry & _ & _ & Hclo & _)].
  { rewrite Hv in Ho. rewrite <- Ho in Hret. discriminate Hret. }
  rewrite Hevs in Heq.
  destruct (split_behind (fun e => is_quiet e = true) _ _ _ _ _ Heq Hq)
    as (l & _ & Hl); [discriminate|].
  assert (Hlate : forall l', fin = l' ++ ECall o (Sigint b) :: post ->
            exists rest,
              post = ECreateTask (Some c) :: rest /\
              (try_event (ECall o (Sigint b)) = true -> finished r ->
               exists o',
                 In (ECall (WriteGattChar c characteristic_uuid off_frame) o')
                    rest) /\
              (try_event (ECall o (Sigint b)) = false -> rest = [])).
  { intros l' Hfin.
    destruct (closing_sigint_at _ _ _ _ _ _ _ _ Hclo Hfin) as (-> & Hno).
    exists []. split; [reflexivity|]. split; [|reflexivity].
    intros Hyes. rewrite Hno in Hyes. discriminate Hyes. }
  apply app_eq_app in Hl as (l0 & [(Hlast & Hpost) | (_ & Hfin)]);
    [|exact (Hlate _ Hfin)].
  destruct l0 as [|e0 l0].
  { cbn in Hpost. exact (Hlate [] (eq_sym Hpost)). }
  cbn in Hpost. inversion Hpost as [[He0 Hpost']]. subst e0.
  assert (Hyes : try_event (ECall o (Sigint b)) = true).
  { rewrite Forall_forall in Htry. apply Htry.
    apply in_or_app. right. rewrite Hlast.
    apply in_or_app. right. left. reflexivity. }
  destruct (ending_sigint_at _ _ _ _ _ _ _ Hend Hlast) as (_ & -> & Hx).
  exists fin. split; [reflexivity|].
  split; [|intros Hno; rewrite Hno in Hyes; discriminate Hyes].
  intros _ Hf.
  destruct Hclo as [e fin' rf He Hsd|e fin' rf He Hsd|y Hy].
  - destruct Hx as [Hx|Hx]; inversion Hx; subst; discriminate He.
  - exact (shutdown_off_write _ _ _ Hsd).
  - destruct Hx as [Hx|Hx]; subst y; contradiction.
Qed.

(** Whenever [on_exit(client)] runs for a client, as the [finally] clause of
    [main] or as the task that the handler queued, it attempts one write,
    of the OFF frame. *)
Lemma on_exit_writes_off (c : BleakClient) (st : state) :
  written (events_of (on_exit (Some c) st)) = [off_frame].
Proof.
  destruct st as [[|[v|cls msg|[|]|] [|[v'|cls' msg'|[|]|] s]] [|] [cv|] reg];
    reflexivity.
Qed.

(** * The claims *)

(** ** C2, C4, C8: the three encodings *)

(** C2, as stated, fails: the frame for the colour (255, 0, 128) has nine
    bytes, not eleven. *)
Lemma colour_frame_not_eleven_bytes : ~ eleven_byte_colour_frame 255 0 128.
Proof.
  intros (frame & Hf & Hlen & _).
  rewrite ENCODE_COLOR_bytes in Hf by lia.
  inversion Hf; subst frame. discriminate Hlen.
Qed.

(** C2, amended: for all r, g, b in [0, 255] the colour frame is the
    nine-byte sequence 7E 07 05 03 r g b 10 EF; the string it is decoded from
    holds the channels as two lower-case hexadecimal digits each, zero-padded,
    in the order R, G, B; this frame is what [send_colour_to_device] writes. *)
Theorem colour_frame_nine_bytes (r g b : Z) :
  0 <= r <= 255 -> 0 <= g <= 255 -> 0 <= b <= 255 ->
  let frame := [126; 7; 5; 3; r; g; b; 16; 239] in
  let value := (format_02x r ++ format_02x g ++ format_02x b)%string in
  ENCODE_COLOR r g b = inr frame /\
  List.length frame = 9%nat /\
  value =
    String (hex_digit (r / 16)) (String (hex_digit (r mod 16))
   (String (hex_digit (g / 16)) (String (hex_digit (g mod 16))
   (String (hex_digit (b / 16)) (String (hex_digit (b mod 16)) ""))))) /\
  forall client uuid st,
    send_colour_to_device client uuid value st =
    write_gatt_char client uuid frame st.
Proof.
  intros Hr Hg Hb frame value.
  pose proof (ENCODE_COLOR_bytes r g b Hr Hg Hb) as Henc.
  split; [exact Henc|]. split; [reflexivity|]. split.
  - unfold value. rewrite !format_02x_byte by assumption. reflexivity.
  - intros client uuid st. unfold send_colour_to_device, bytes_fromhex.
    fold value. unfold ENCODE_COLOR in Henc. fold value in Henc.
    rewrite Henc. apply bind_ret_l.
Qed.

Lemma colour_frame_nine_bytes_witness :
  ENCODE_COLOR 255 0 128 = inr [126; 7; 5; 3; 255; 0; 128; 16; 239].
Proof.
  apply (colour_frame_nine_bytes 255 0 128); lia.
Defined.

(** What a write of [data] leaves in the list of written frames, whatever
    the outcome of the call. *)
Lemma written_write_gatt_char client uuid data st :
  written (events_of (write_gatt_char client uuid data st)) = [data].
Proof.
  destruct st as [[|[v|cls msg|[|]|] s] [|] [cv|] reg]; reflexivity.
Qed.

Lemma written_toggle_on client uuid st :
  written (events_of (toggle_on client uuid st)) = [on_frame].
Proof.
  destruct st as [[|[v|cls msg|[|]|] s] [|] [cv|] reg]; reflexivity.
Qed.

Lemma written_toggle_off client uuid st :
  written (events_of (toggle_off client uuid st)) = [off_frame].
Proof.
  destruct st as [[|[v|cls msg|[|]|] s] [|] [cv|] reg]; reflexivity.
Qed.

(** C4, as stated, fails: the OFF frame is not the eight bytes
    7E 04 00 00 00 FF 00 EF with padding at either end. *)
Lemma off_frame_not_padded_eight_bytes : ~ padded_eight_byte_off_frame.
Proof.
  intros (front & back & H). rewrite fromhex_OFF_HEX in H.
  inversion H as [H']. clear H.
  destruct front as [|x [|y front]].
  - simpl in H'. inversion H'.
  - simpl in H'. inversion H'.
  - apply (f_equal (@List.length Z)) in H'.
    simpl in H'. rewrite length_app in H'. simpl in H'. lia.
Qed.

(** C4, amended: the OFF-command encoding is the fixed nine-byte sequence
    7E 04 04 00 00 00 FF 00 EF, of the same length as the ON command, and
    [toggle_off] writes it on every call. *)
Theorem off_frame_fixed :
  fromhex OFF_HEX = inr [126; 4; 4; 0; 0; 0; 255; 0; 239] /\
  List.length off_frame = 9%nat /\
  List.length off_frame = List.length on_frame /\
  forall client uuid st,
    written (events_of (toggle_off client uuid st)) =
    [[126; 4; 4; 0; 0; 0; 255; 0; 239]].
Proof.
  repeat split. intros; apply written_toggle_off.
Qed.

(** C8: the ON-command encoding is the fixed nine-byte sequence
    7E 04 04 F0 00 01 FF 00 EF; it depends on no parameter, and [toggle_on]
    and [toggle_off] each write the same frame on every call, whatever the
    client, the characteristic and the state. *)
Theorem on_frame_fixed :
  fromhex ON_HEX = inr [126; 4; 4; 240; 0; 1; 255; 0; 239] /\
  List.length on_frame = 9%nat /\
  (forall client uuid st,
     written (events_of (toggle_on client uuid st)) =
     [[126; 4; 4; 240; 0; 1; 255; 0; 239]]) /\
  (forall client uuid st client' uuid' st',
     written (events_of (toggle_on client uuid st)) =
     written (events_of (toggle_on client' uuid' st'))) /\
  (forall client uuid st client' uuid' st',
     written (events_of (toggle_off client uuid st)) =
     written (events_of (toggle_off client' uuid' st'))).
Proof.
  split; [reflexivity|]. split; [reflexivity|]. split; [|split].
  - intros; apply written_toggle_on.
  - intros. rewrite !written_toggle_on. reflexivity.
  - intros. rewrite !written_toggle_off. reflexivity.
Qed.

(** ** C10: disconnecting no client *)

(** C10: [disconnect_client(None)] and [on_exit(None)] return normally in
    every state; they make no call at all (no OFF write, no disconnect), take
    nothing from the outcomes to come and only print [Exited]. *)
Theorem disconnect_without_client (st : state) :
  disconnect_client None st = (Normal tt, [EPrint "Exited"], st) /\
  on_exit None st = (Normal tt, [EPrint "Exited"], st).
Proof.
  split; reflexivity.
Qed.

(** * The connection lifecycle *)

(** The module-level statements on a screen of 1920 x 1080 pixels lead to
    the state [after_import]. *)
Lemma module_init_1080p (s : list outcome) :
  module_init (initial_state (Returns (VImage 1920 1080) :: s)) =
  (Normal tt, [ECall (Grab None) (Returns (VImage 1920 1080))], after_import s).
Proof. reflexivity. Qed.

(** ** C1: the writes end with the OFF write *)

(** C1, as stated, fails: in the run [write_and_off_fail], which reaches the
    loop and ends by a propagated failure, the OFF write fails and no
    disconnection follows it. *)
Lemma failed_off_write_is_last :
  In running (events_of (run write_and_off_fail)) /\
  finished (result_of (run write_and_off_fail)) /\
  ~ off_then_disconnect_last (events_of (run write_and_off_fail)).
Proof.
  split; [vm_compute; tauto|]. split; [exact I|].
  intros (before & c & o & o' & Hg & _).
  vm_compute in Hg.
  destruct before as [|e1 [|e2 [|e3 [|e4 before]]]]; inversion Hg.
Qed.

(** C1, amended: for every run that reaches the RUNNING state and is then
    ended by a propagated failure, no interrupt signal arriving, the
    characteristic writes end with exactly one OFF-command write, the only
    OFF write of the run; when that write returns, one disconnection attempt
    follows it directly and is the last operation on the connection; when it
    fails, no disconnection is attempted. *)
Theorem off_write_ends_the_writes fuel address st r evs st' :
  main fuel address st = (r, evs, st') ->
  In running evs ->
  uninterrupted evs ->
  finished r ->
  let c := {| client_address := address |} in
  exists before o after,
    gatt_events evs =
      before ++ ECall (WriteGattChar c characteristic_uuid off_frame) o :: after /\
    Forall (fun e => is_off_write e = false /\ is_disconnect e = false) before /\
    ((exists v o', o = Returns v /\ after = [ECall (Disconnect c) o']) \/
     (is_returns o = false /\ after = [])).
Proof.
  intros Hrun Hin _ Hfin c.
  destruct (main_cases _ _ _ _ _ _ Hrun)
    as [(o & _ & _ & -> & _) |
        (v & x & q & last & fin & _ & -> & _ & _ & Htry & _ & _ & Hclo & _)].
  - exfalso. exact (proj1 (proj2 (unconnected_events _ o)) Hin).
  - exact (connected_run_gatt c q last x fin r Htry Hclo Hfin).
Qed.

Lemma off_write_ends_the_writes_witness :
  exists before o after,
    gatt_events (events_of (run write_fails)) =
      before
        ++ ECall (WriteGattChar {| client_address := device_address |}
                    characteristic_uuid off_frame) o :: after /\
    Forall (fun e => is_off_write e = false /\ is_disconnect e = false) before /\
    ((exists v o',
        o = Returns v /\
        after = [ECall (Disconnect {| client_address := device_address |}) o']) \/
     (is_returns o = false /\ after = [])).
Proof.
  apply (off_write_ends_the_writes
           (S (List.length write_fails)) device_address (after_import write_fails)
           (result_of (run write_fails)) (events_of (run write_fails)) (state_of (run write_fails))).
  - vm_compute. reflexivity.
  - vm_compute. tauto.
  - vm_compute. reflexivity.
  - vm_compute. exact I.
Defined.

(** ** C6: a connection attempt that fails *)

(** C6: in every run in which the connection attempt does not return (it
    raises, it is interrupted or it hangs), [main] emits the connection
    attempt and at most the line that logs the failure: it never enters the
    RUNNING state and never attempts a characteristic write. *)
Theorem failed_connect_writes_nothing fuel address st r evs st' o :
  main fuel address st = (r, evs, st') ->
  hd Never (script st) = o ->
  is_returns o = false ->
  let c := {| client_address := address |} in
  evs = EPrint "Connecting" :: ECall (Connect c) o :: unconnected_log o /\
  ~ In running evs /\
  Forall (fun e => is_write e = false) evs.
Proof.
  intros Hrun Ho Hret c.
  destruct (main_cases _ _ _ _ _ _ Hrun)
    as [(o' & Ho' & _ & -> & _) | (v & x & q & last & fin & Hv & _)].
  - rewrite Ho in Ho'. subst o'.
    destruct (unconnected_events c o) as (Hw & Hr & _).
    split; [reflexivity|]. split; assumption.
  - rewrite Ho in Hv. rewrite Hv in Hret. discriminate Hret.
Qed.

Lemma failed_connect_writes_nothing_witness :
  let evs := events_of (run connect_fails) in
  evs = [EPrint "Connecting";
         ECall (Connect {| client_address := device_address |})
           (Raises "BleakError" "Device not found");
         EPrint "Error: Device not found"] /\
  ~ In running evs /\
  Forall (fun e => is_write e = false) evs.
Proof.
  apply (failed_connect_writes_nothing
           4%nat device_address (after_import connect_fails)
           (result_of (run connect_fails)) (events_of (run connect_fails))
           (state_of (run connect_fails))
           (Raises "BleakError" "Device not found")).
  - vm_compute. reflexivity.
  - reflexivity.
  - reflexivity.
Defined.

(** ** C5: connection and disconnection *)

Lemma filter_gatt_events (p : event -> bool) (evs : list event) :
  (forall e, p e = true -> is_write e || is_disconnect e = true) ->
  filter p (gatt_events evs) = filter p evs.
Proof.
  intros Hp. induction evs as [|e evs IH]; [reflexivity|].
  simpl. destruct (is_write e || is_disconnect e) eqn:Hg; simpl.
  - rewrite IH. reflexivity.
  - rewrite IH. destruct (p e) eqn:He; [|reflexivity].
    rewrite (Hp e He) in Hg. discriminate.
Qed.

Lemma filter_none {A} (p : A -> bool) (l : list A) :
  Forall (fun a => p a = false) l -> filter p l = [].
Proof.
  induction 1 as [|a l Ha _ IH]; simpl; [reflexivity|].
  rewrite Ha. assumption.
Qed.

(** C5, as stated, fails: in the run [on_and_off_fail] the connection is
    established, the coroutine runs to its end, and there is no
    disconnection attempt at all, because the OFF write failed. *)
Lemma failed_off_write_blocks_disconnect :
  In (ECall (Connect {| client_address := device_address |}) ok)
     (events_of (run on_and_off_fail)) /\
  finished (result_of (run on_and_off_fail)) /\
  ~ one_disconnect_after_off (events_of (run on_and_off_fail)).
Proof.
  split; [vm_compute; tauto|]. split; [exact I|].
  intros [Hone _]. vm_compute in Hone. discriminate Hone.
Qed.

(** C5, amended: for every successful connection establishment whose run
    ends with no interrupt signal arriving, exactly one OFF-command write is
    attempted, and the disconnection depends on it: exactly one
    disconnection attempt, directly after the OFF write, when the OFF write
    returns, and none when the OFF write fails. *)
Theorem disconnect_follows_off_write fuel address st r evs st' v :
  let c := {| client_address := address |} in
  main fuel address st = (r, evs, st') ->
  In (ECall (Connect c) (Returns v)) evs ->
  uninterrupted evs ->
  finished r ->
  exists o,
    filter is_off_write evs =
      [ECall (WriteGattChar c characteristic_uuid off_frame) o] /\
    List.length (filter is_disconnect evs) =
      (if is_returns o then 1%nat else 0%nat) /\
    forall pre d post,
      gatt_events evs = pre ++ d :: post -> is_disconnect d = true ->
      exists w, o = Returns w /\ post = [] /\
        exists pre', pre = pre' ++ [ECall (WriteGattChar c characteristic_uuid off_frame) o].
Proof.
  intros c Hrun Hin _ Hfin.
  destruct (main_cases _ _ _ _ _ _ Hrun)
    as [(o & _ & Hret & -> & _) |
        (v' & x & q & last & fin & _ & -> & _ & _ & Htry & _ & _ & Hclo & _)].
  - exfalso. destruct (proj2 (proj2 (unconnected_events c o)) v) as [H|H].
    + exact (H Hin).
    + rewrite H in Hret. discriminate.
  - destruct (connected_run_gatt c q last x fin r Htry Hclo Hfin)
      as (before & o & after & Hg & Hbefore & Hafter).
    assert (Hoff : filter is_off_write before = [])
      by (apply filter_none; eapply Forall_impl; [|exact Hbefore];
          intros e [H _]; exact H).
    assert (Hdis : filter is_disconnect before = [])
      by (apply filter_none; eapply Forall_impl; [|exact Hbefore];
          intros e [_ H]; exact H).
    exists o. split; [|split].
    + rewrite <- (filter_gatt_events is_off_write), Hg.
      * rewrite filter_app, Hoff.
        destruct Hafter as [(w & o' & -> & ->) | (Hret & ->)]; reflexivity.
      * intros [line|[] ?|?] He; try discriminate He; reflexivity.
    + rewrite <- (filter_gatt_events is_disconnect), Hg.
      * rewrite filter_app, Hdis.
        destruct Hafter as [(w & o' & -> & ->) | (Hret & ->)];
          [reflexivity|]. simpl. rewrite Hret. reflexivity.
      * intros [line|[] ?|?] He; try discriminate He; reflexivity.
    + intros pre d post Heq Hd. rewrite Hg in Heq.
      destruct (split_behind (fun e => is_disconnect e = false) _ _ _ _ _ Heq)
        as (l & -> & Hl).
      { eapply Forall_impl; [|exact Hbefore]. intros e [_ H]; exact H. }
      { rewrite Hd. discriminate. }
      destruct l as [|e l]; simpl in Hl; inversion Hl as [[He Hl']]; subst.
      { discriminate Hd. }
      destruct Hafter as [(w & o' & -> & Ha) | (Hret & Ha)].
      * destruct l as [|e l]; inversion Ha as [[He Hl'']].
        -- exists w. split; [reflexivity|]. split; [reflexivity|].
           exists before. reflexivity.
        -- destruct l; discriminate.
      * destruct l; discriminate.
Qed.

Lemma disconnect_follows_off_write_witness :
  exists o,
    filter is_off_write (events_of (run write_fails)) =
      [ECall (WriteGattChar {| client_address := device_address |}
                characteristic_uuid off_frame) o] /\
    List.length (filter is_disconnect (events_of (run write_fails))) =
      (if is_returns o then 1%nat else 0%nat) /\
    forall pre d post,
      gatt_events (events_of (run write_fails)) = pre ++ d :: post ->
      is_disconnect d = true ->
      exists w, o = Returns w /\ post = [] /\
        exists pre',
          pre = pre' ++ [ECall (WriteGattChar {| client_address := device_address |}
                                  characteristic_uuid off_frame) o].
Proof.
  apply (disconnect_follows_off_write
           (S (List.length write_fails)) device_address (after_import write_fails)
           (result_of (run write_fails)) (events_of (run write_fails)) (state_of (run write_fails)) VNone).
  - vm_compute. reflexivity.
  - vm_compute. tauto.
  - vm_compute. reflexivity.
  - vm_compute. exact I.
Defined.

(** ** C3: a failed write in the loop *)

(** C3, as stated, fails: in the run [write_fails] the write of the first
    iteration fails and no pause and no further iteration follow, although
    the environment has outcomes left. *)
Lemma failed_write_stops_loop :
  script (state_of (run write_fails)) <> [] /\
  ~ loop_survives_failed_write (events_of (run write_fails)).
Proof.
  split; [vm_compute; discriminate|].
  intros H.
  destruct (H (firstn 10 (events_of (run write_fails)))
              {| client_address := device_address |} characteristic_uuid
              [126; 7; 5; 3; 255; 0; 128; 16; 239] "BleakError" "write failed"
              (skipn 11 (events_of (run write_fails)))) as (o & Ho).
  - vm_compute. reflexivity.
  - vm_compute. tauto.
  - discriminate.
  - vm_compute in Ho. decompose [or] Ho; try discriminate; contradiction.
Qed.

(** C3, amended: for every iteration of the RUNNING loop in which the
    characteristic write fails, the loop is terminated: the failure is
    logged, and what follows is the shutdown sequence only (the OFF write,
    then the disconnection when the OFF write returns), with no pause, no
    screen sample and no further colour write. *)
Theorem failed_write_ends_the_loop fuel address st r evs st'
    pre c' uuid data cls msg post :
  let c := {| client_address := address |} in
  main fuel address st = (r, evs, st') ->
  evs = pre ++ ECall (WriteGattChar c' uuid data) (Raises cls msg) :: post ->
  In running pre ->
  data <> off_frame ->
  exists fin,
    post = EPrint ("Error: " ++ msg) :: fin /\
    shutdown c fin r /\
    Forall (fun e => is_loop_call e = false) fin.
Proof.
  intros c Hrun Heq Hin Hdata.
  destruct (main_cases _ _ _ _ _ _ Hrun)
    as [(o & _ & _ & Hevs & _) |
        (v & x & q & last & fin & _ & Hevs & Hq & Hend & _ & _ & _ & Hclo & _)].
  - exfalso.
    assert (Hw : Forall (fun e => is_write e = false) evs)
      by (rewrite Hevs; apply (unconnected_events _ o)).
    rewrite Heq in Hw.
    apply Forall_app in Hw as [_ Hw]. inversion Hw as [|? ? Hw' _].
    discriminate Hw'.
  - rewrite Heq in Hevs. symmetry in Hevs.
    destruct (split_behind (fun e => is_quiet e = true) _ _ _ _ _ Hevs Hq)
      as (l & -> & Hl); [discriminate|].
    assert (Hno : forall l', fin = l' ++ ECall (WriteGattChar c' uuid data)
                                        (Raises cls msg) :: post -> False)
      by (intros l' Hfin; apply Hdata;
          exact (closing_write_is_off _ _ _ _ _ _ _ _ _ _ Hclo Hfin)).
    destruct Hend as [e He|o cls' msg'|o b|o|o|]; cbn [app] in Hl.
    1,6: exfalso; exact (Hno _ Hl).
    2,3: destruct l as [|e1 [|e2 l]]; cbn [app] in Hl; inversion Hl; subst;
         exfalso; exact (Hno _ eq_refl).
    2: destruct l as [|e1 l]; cbn [app] in Hl; inversion Hl; subst;
       exfalso; exact (Hno _ eq_refl).
    destruct l as [|e1 l]; cbn [app] in Hl; inversion Hl; subst.
    2: exfalso; exact (Hno _ eq_refl).
    inversion Hclo as [e fin' rf He Hsd|e fin' rf He Hsd|y Hy]; subst.
    + exists fin'. split; [reflexivity|]. split; [assumption|].
      eapply Forall_impl; [|exact (shutdown_calls _ _ _ Hsd)].
      intros e [H _]; exact H.
    + discriminate He.
    + contradiction.
Qed.

Lemma failed_write_ends_the_loop_witness :
  exists fin,
    skipn 11 (events_of (run write_fails)) =
      EPrint ("Error: " ++ "write failed") :: fin /\
    shutdown {| client_address := device_address |} fin
      (result_of (run write_fails)) /\
    Forall (fun e => is_loop_call e = false) fin.
Proof.
  apply (failed_write_ends_the_loop
           (S (List.length write_fails)) device_address (after_import write_fails)
           (result_of (run write_fails)) (events_of (run write_fails)) (state_of (run write_fails))
           (firstn 10 (events_of (run write_fails)))
           {| client_address := device_address |} characteristic_uuid
           [126; 7; 5; 3; 255; 0; 128; 16; 239] "BleakError" "write failed"
           (skipn 11 (events_of (run write_fails)))).
  - vm_compute. reflexivity.
  - vm_compute. reflexivity.
  - vm_compute. tauto.
  - discriminate.
Defined.

(** ** C7: the exit status *)

(** C7, as stated, fails: in the run [write_fails] of the whole script a
    write error ends the loop, the error is logged, the shutdown sequence
    goes through, and the process exits with status 0. *)
Lemma caught_error_exits_zero :
  let x := program (Returns (VImage 1920 1080) :: write_fails) in
  In (EPrint "Error: write failed") (events_of x) /\
  off_then_disconnect_last (events_of x) /\
  ~ exits_nonzero (result_of x).
Proof.
  cbv zeta. split; [vm_compute; tauto|]. split.
  - exists (firstn 2 (gatt_events (events_of
              (program (Returns (VImage 1920 1080) :: write_fails))))),
      {| client_address := device_address |}, ok, ok.
    split; [vm_compute; reflexivity|].
    vm_compute. repeat constructor.
  - intros (n & Hn & Hnz). vm_compute in Hn. inversion Hn. subst n.
    apply Hnz. reflexivity.
Qed.

(** C7, amended: once the connection is established, an error raised in the
    [try] block or an interrupt raised inside the coroutine is followed by
    the shutdown sequence (the OFF write, then the disconnection when the
    OFF write returns); the process then exits with status 1 when an
    interrupt came before the shutdown or when a call of the shutdown did
    not return, and with status 0 when the shutdown was entered by a caught
    error and went through. *)
Theorem exit_status_after_shutdown fuel address st r evs st' v :
  let c := {| client_address := address |} in
  main fuel address st = (r, evs, st') ->
  In (ECall (Connect c) (Returns v)) evs ->
  finished r ->
  exists pre fin rf,
    evs = pre ++ fin /\
    shutdown c fin rf /\
    events_of (run_main fuel address st) = evs /\
    exit_status (result_of (run_main fuel address st)) =
      Some (if existsb is_sigint pre then 1
            else match rf with Normal _ => 0 | Abort _ => 1 end).
Proof.
  intros c Hrun Hin Hfin.
  destruct (run_main_exit _ _ _ _ _ _ Hrun) as [-> ->].
  destruct (main_cases _ _ _ _ _ _ Hrun)
    as [(o & _ & Hret & -> & _) |
        (v' & x & q & last & fin & _ & -> & Hq & Hend & _ & _ & _ & Hclo & _)].
  - exfalso. destruct (proj2 (proj2 (unconnected_events c o)) v) as [H|H].
    + exact (H Hin).
    + rewrite H in Hret. discriminate.
  - pose proof (quiet_no_sigint _ Hq) as Hqs.
    destruct Hclo as [e fin' rf He Hsd|e fin' rf He Hsd|y Hy].
    + exists (q ++ last ++ [EPrint ("Error: " ++ str_exn e)]), fin', rf.
      split; [rewrite <- !app_assoc; reflexivity|].
      split; [assumption|]. split; [reflexivity|].
      rewrite !existsb_app, Hqs.
      assert (Hl : existsb is_sigint last = false)
        by (inversion Hend; subst; try reflexivity; discriminate He).
      rewrite Hl. cbn [existsb is_sigint orb].
      destruct rf as [[]|[e'|e'| |]]; try contradiction; [reflexivity|].
      exact (shutdown_raise_exit _ _ _ Hsd).
    + exists (q ++ last), fin', rf.
      split; [rewrite <- !app_assoc; reflexivity|].
      split; [assumption|]. split; [reflexivity|].
      rewrite existsb_app, Hqs.
      inversion Hend; subst; try congruence; try discriminate He.
      cbn [existsb is_sigint orb].
      destruct rf as [[]|[e'|e'| |]]; try contradiction; [reflexivity|].
      exact (shutdown_raise_exit _ _ _ Hsd).
    + destruct y; contradiction.
Qed.

Lemma exit_status_after_shutdown_witness :
  exists pre fin rf,
    events_of (run sigint_in_the_loop) = pre ++ fin /\
    shutdown {| client_address := device_address |} fin rf /\
    events_of (run_main (S (List.length sigint_in_the_loop)) device_address
                 (after_import sigint_in_the_loop)) =
      events_of (run sigint_in_the_loop) /\
    exit_status
      (result_of (run_main (S (List.length sigint_in_the_loop)) device_address
                    (after_import sigint_in_the_loop))) =
      Some (if existsb is_sigint pre then 1
            else match rf with Normal _ => 0 | Abort _ => 1 end).
Proof.
  apply (exit_status_after_shutdown
           (S (List.length sigint_in_the_loop)) device_address (after_import sigint_in_the_loop)
           (result_of (run sigint_in_the_loop)) (events_of (run sigint_in_the_loop)) (state_of (run sigint_in_the_loop)) VNone).
  - vm_compute. reflexivity.
  - vm_compute. tauto.
  - vm_compute. exact I.
Defined.

(** ** C9: the settle delay *)

(** C9, as stated, fails: in the run [sigint_while_settling] the connection
    succeeds, SIGINT cuts the settle delay short, and the OFF write of the
    shutdown is issued at once: it is the first write of the run and no
    settle delay has gone by. *)
Lemma interrupted_settle_delay :
  In (ECall (Connect {| client_address := device_address |}) ok)
     (events_of (run sigint_while_settling)) /\
  ~ settled_before_first_write (events_of (run sigint_while_settling)).
Proof.
  split; [vm_compute; tauto|].
  intros H.
  destruct (H (firstn 7 (events_of (run sigint_while_settling)))
              (ECall (WriteGattChar {| client_address := device_address |}
                        characteristic_uuid off_frame) ok)
              (skipn 8 (events_of (run sigint_while_settling))))
    as (v & Hv).
  - vm_compute. reflexivity.
  - reflexivity.
  - vm_compute. repeat constructor.
  - vm_compute in Hv. decompose [or] Hv; try discriminate; contradiction.
Qed.

(** C9, amended: in every run in which the connection succeeds, the settle
    delay [time.sleep(3)] is the first call after the connection is
    established, so that no characteristic write comes before it; when it
    returns, every write of the run comes after the full delay; when it is
    cut short, the writes that follow are OFF writes of the shutdown only,
    issued without the delay. *)
Theorem settle_delay_follows_connect fuel address st r evs st' v :
  let c := {| client_address := address |} in
  main fuel address st = (r, evs, st') ->
  hd Never (script st) = Returns v ->
  exists o rest,
    evs = EPrint "Connecting" :: ECall (Connect c) (Returns v)
          :: EPrint ("Connected to " ++ address)
          :: ECall (Sleep settle_delay) o :: rest /\
    (is_returns o = false ->
     Forall (fun e => is_write e = true -> is_off_write e = true) rest).
Proof.
  intros c Hrun Hv.
  destruct (main_cases _ _ _ _ _ _ Hrun)
    as [(o & Ho & Hret & _) |
        (v' & x & q & last & fin & Hv' & -> & _ & _ & _ & _ & Hset & Hclo & _)].
  - rewrite Hv in Ho. rewrite <- Ho in Hret. discriminate Hret.
  - rewrite Hv in Hv'. inversion Hv'; subst v'.
    destruct Hset as (o & rest & Heq & Hrest).
    exists o, (rest ++ fin). split.
    + rewrite app_assoc, Heq. reflexivity.
    + intros Hret. apply Forall_app. split.
      * eapply Forall_impl; [|exact (Hrest Hret)].
        intros e He Hw. rewrite He in Hw. discriminate.
      * eapply Forall_impl; [|exact (closing_calls _ _ _ _ Hclo)].
        intros e [_ H]; exact H.
Qed.

Lemma settle_delay_follows_connect_witness :
  exists o rest,
    events_of (run write_fails) =
      EPrint "Connecting"
      :: ECall (Connect {| client_address := device_address |}) (Returns VNone)
      :: EPrint ("Connected to " ++ device_address)
      :: ECall (Sleep settle_delay) o :: rest /\
    (is_returns o = false ->
     Forall (fun e => is_write e = true -> is_off_write e = true) rest).
Proof.
  apply (settle_delay_follows_connect
           (S (List.length write_fails)) device_address (after_import write_fails)
           (result_of (run write_fails)) (events_of (run write_fails)) (state_of (run write_fails)) VNone).
  - vm_compute. reflexivity.
  - reflexivity.
Defined.

(** * The structure of the loop *)

Lemma loop_body_pass (c : BleakClient) (st : state) r evs st' :
  loop_body c st = (r, evs, st') ->
  sigint_handler st = true ->
  client_var st = Some (Some c) ->
  screen_region st' = screen_region st /\
  ((r = Normal tt /\
    exists p, evs = pass_events c p /\ encoded p /\
              screen_region st = Some (pass_region p)) \/
   ((exists x, r = Abort x) /\ incomplete evs)).
Proof.
  destruct st as [s h cv reg]. cbn [sigint_handler client_var script].
  intros Hrun -> ->.
  unfold loop_body, get_dominant_colour, send_colour_to_device, time_sleep,
    write_gatt_char, call, await, load_screen_region, bytes_fromhex in Hrun.
  destruct reg as [reg|]; exec Hrun; inversion Hrun; subst; clear Hrun.
  all: split; [reflexivity|].
  all: first
         [ left; split; [reflexivity|];
           match goal with
           | H : fromhex _ = inr ?d
             |- exists p, [ECall (Grab (Some ?rg)) (Returns ?a);
                           ECall SavePng (Returns ?b);
                           ECall GetDominantColor (Returns (VColour ?x ?y ?z));
                           ECall _ (Returns ?w); ECall _ (Returns ?e)] = _ /\ _ =>
               exists (mkPass rg a b (x, y, z) d w e);
               split; [reflexivity|]; split; [exact H | reflexivity]
           end
         | right; split; [eexists; reflexivity|];
           split; [reflexivity|];
           first [ left; split; [reflexivity | cbn; lia]
                 | right; do 4 eexists; split; [reflexivity|];
                   split; [reflexivity|]; eassumption ] ].
Qed.

Lemma incomplete_nil : incomplete [].
Proof. split; [reflexivity|]. left. split; [reflexivity|]. cbn. lia. Qed.

(** The loop is a sequence of passes, then one iteration that is not
    complete. *)
Lemma while_true_passes (fuel : nat) (c : BleakClient) :
  forall st r evs st',
    while_true fuel (loop_body c) st = (r, evs, st') ->
    sigint_handler st = true ->
    client_var st = Some (Some c) ->
    exists passes partial,
      evs = flat_map (pass_events c) passes ++ partial /\
      Forall encoded passes /\
      Forall (fun p => screen_region st = Some (pass_region p)) passes /\
      incomplete partial.
Proof.
  induction fuel as [|fuel IH]; intros st r evs st' Hrun Hh Hc.
  - inversion Hrun; subst. exists [], [].
    split; [reflexivity|]. split; [constructor|].
    split; [constructor|]. apply incomplete_nil.
  - change (while_true (S fuel) (loop_body c) st)
      with (bind (loop_body c) (fun _ => while_true fuel (loop_body c)) st)
      in Hrun.
    unfold bind in Hrun.
    destruct (loop_body c st) as [[rb eb] stb] eqn:Hb.
    destruct (loop_body_cases _ _ _ _ _ Hb Hh Hc) as (Hh1 & Hc1 & _).
    destruct (loop_body_pass _ _ _ _ _ Hb Hh Hc)
      as (Hreg & [(-> & p & -> & Henc & Hp) | ((x & ->) & Hinc)]).
    + destruct (while_true fuel (loop_body c) stb) as [[r2 e2] st2] eqn:H2.
      inversion Hrun; subst; clear Hrun.
      destruct (IH _ _ _ _ H2 Hh1 Hc1)
        as (passes & partial & -> & Hall & Hregs & Hinc).
      exists (p :: passes), partial. cbn [flat_map].
      rewrite <- app_assoc. rewrite Hreg in Hregs.
      split; [reflexivity|]. split; [constructor; assumption|].
      split; [constructor; assumption|]. assumption.
    + inversion Hrun; subst; clear Hrun.
      exists [], evs.
      split; [reflexivity|]. split; [constructor|].
      split; [constructor|]. assumption.
Qed.

(** A run of the [try] block that announces the loop has gone through the
    whole start-up, and the rest of its events are those of the loop. *)
Lemma main_try_running (fuel : nat) (address : string) st r evs st' :
  main_try fuel address st = (r, evs, st') ->
  sigint_handler st = true ->
  client_var st = None ->
  In running evs ->
  let c := {| client_address := address |} in
  exists v0 v1 v2 passes partial,
    evs = startup c address v0 v1 v2
          ++ flat_map (pass_events c) passes ++ partial /\
    Forall encoded passes /\
    Forall (fun p => screen_region st = Some (pass_region p)) passes /\
    incomplete partial.
Proof.
  destruct st as [s h cv reg]. cbn [sigint_handler client_var script].
  intros Hrun -> -> Hin. cbv zeta.
  unfold main_try, init_client, store_client, time_sleep, toggle_on,
    write_gatt_char, call, await, bytes_fromhex in Hrun.
  change (fromhex ON_HEX) with (@inr nat bytes on_frame) in Hrun.
  exec Hrun.
  all: try (destruct (while_true _ _ _) as [[rl el] stl] eqn:Hloop;
            apply while_true_passes in Hloop; [|reflexivity..];
            destruct Hloop as (passes & partial & -> & Hall & Hregs & Hinc)).
  all: inversion Hrun; subst; clear Hrun.
  all: try (exfalso; cbn in Hin; decompose [or] Hin;
            try discriminate; contradiction).
  eexists; eexists; eexists; exists passes, partial.
  split; [reflexivity|]. split; [assumption|]. split; assumption.
Qed.

(** [main] is its [try] block followed by what the [except] and [finally]
    clauses emit. *)
Lemma main_split (fuel : nat) (address : string) st r evs st' :
  main fuel address st = (r, evs, st') ->
  let c := {| client_address := address |} in
  ~ In running evs \/
  exists x et st1 fin,
    main_try fuel address (mkState (script st) true None (screen_region st))
      = (Abort x, et, st1) /\
    evs = et ++ fin /\
    closing c x fin r.
Proof.
  intros Hrun c.
  destruct (main_cases _ _ _ _ _ _ Hrun)
    as [(o & _ & _ & Hevs & _) | (v0 & _ & _ & _ & _ & Hv0 & _)].
  { left. rewrite Hevs. apply (unconnected_events c o). }
  right.
  unfold main, new_frame, signal_SIGINT_sigterm_handler in Hrun.
  unfold bind at 1 2 in Hrun. cbn beta iota in Hrun.
  cbn [script client_var screen_region sigint_handler] in Hrun.
  unfold try_finally, try_except in Hrun.
  destruct (main_try fuel address _) as [[rt et] st1] eqn:Htry.
  pose proof Htry as Htry'.
  apply main_try_cases in Htry'; [|reflexivity..].
  cbn [script] in Htry'. fold c in Htry'.
  destruct Htry' as (Hh & [(o & Ho & Hret & _) |
    (v & Hv & Hc & x & q & last & -> & -> & Hq & Hend & _)]).
  { exfalso. rewrite Hv0 in Ho. rewrite <- Ho in Hret. discriminate Hret. }
  exists x, (q ++ last), st1.
  pose proof Hend as Hend'.
  destruct Hend' as [e He|o cls msg|o b|o|o|].
  1: rewrite He in Hrun.
  1-3: cbn [is_Exception] in Hrun; unfold main_except, print in Hrun;
    destruct (main_finally st1) as [[rf ef] st2] eqn:Hf;
    pose proof (main_finally_cases c _ _ _ _ Hf Hh Hc) as Hsd.
  1-2: match type of Hrun with
       | context [EPrint ?line] => exists (EPrint line :: ef)
       end.
  3: exists ef.
  4-6: exists [].
  1-3: destruct rf as [[]|y].
  all: inversion Hrun; subst; clear Hrun.
  all: split; [reflexivity|].
  all: split; [rewrite <- ?app_assoc, ?app_nil_r; reflexivity|].
  1-4: apply closing_caught; auto.
  1: apply (closing_uncaught c (SystemExit 1) ef (Normal tt)); auto.
  1: apply (closing_uncaught c (SystemExit 1) ef (Abort y)); auto.
  all: apply closing_lost; exact I.
Qed.

(** * More on the lifecycle *)

Lemma written_app (l1 l2 : list event) :
  written (l1 ++ l2) = written l1 ++ written l2.
Proof.
  induction l1 as [|e l1 IH]; [reflexivity|].
  destruct e as [line|[] o|cl]; cbn; rewrite ?IH; reflexivity.
Qed.

Lemma sampled_app (l1 l2 : list event) :
  sampled (l1 ++ l2) = sampled l1 ++ sampled l2.
Proof.
  induction l1 as [|e l1 IH]; [reflexivity|].
  destruct e as [line|[] [[]| | |]|cl]; cbn; rewrite ?IH; reflexivity.
Qed.

Lemma written_passes (c : BleakClient) (passes : list pass) :
  written (flat_map (pass_events c) passes) = map pass_frame passes.
Proof.
  induction passes as [|[reg a b [[r g] bl] d w e] passes IH]; [reflexivity|].
  cbn [flat_map]. rewrite written_app, IH. reflexivity.
Qed.

Lemma sampled_passes (c : BleakClient) (passes : list pass) :
  sampled (flat_map (pass_events c) passes) = map pass_colour passes.
Proof.
  induction passes as [|[reg a b [[r g] bl] d w e] passes IH]; [reflexivity|].
  cbn [flat_map]. rewrite sampled_app, IH. reflexivity.
Qed.

Lemma encoded_passes (passes : list pass) :
  Forall encoded passes ->
  Forall2 encodes (map pass_colour passes) (map pass_frame passes).
Proof.
  induction 1 as [|p passes Hp _ IH]; cbn; constructor; assumption.
Qed.

(** What the [except] and [finally] clauses add to the frames and to the
    samples. *)
Lemma closing_written (c : BleakClient) x fin r :
  closing c x fin r ->
  sampled fin = [] /\ existsb is_slept fin = false /\ ~ In running fin /\
  (written fin = [] \/ written fin = [off_frame]) /\
  (finished r -> written fin = [off_frame]).
Proof.
  assert (Hsd : forall f rf, shutdown c f rf ->
            sampled f = [] /\ existsb is_slept f = false /\ ~ In running f /\
            written f = [off_frame]).
  { intros f rf [v v'|o tail y Hend|v o tail y Hend].
    2-3: inversion Hend; subst.
    all: cbn; repeat split; try reflexivity.
    all: intros H; decompose [or] H; try discriminate; contradiction. }
  intros [e fin' rf He Hs|e fin' rf He Hs|y Hy].
  - destruct (Hsd _ _ Hs) as (H1 & H2 & H3 & H4).
    cbn. repeat split; auto.
    intros [H|H]; [discriminate H | exact (H3 H)].
  - destruct (Hsd _ _ Hs) as (H1 & H2 & H3 & H4).
    repeat split; auto.
  - cbn. repeat split; auto.
    destruct y; try contradiction; intros [].
Qed.

(** X1: once [main] has announced the loop, its events are the start-up (the
    connection, the settle delay and the ON write, all returned), then whole
    iterations, each one a grab of the region, a save, a sampled colour, the
    write of the encoding of that colour and the pause of 0.1, all returned,
    and then a rest in which no sleep returns any more. *)
Theorem running_is_whole_iterations fuel address st r evs st' :
  let c := {| client_address := address |} in
  main fuel address st = (r, evs, st') ->
  In running evs ->
  exists v0 v1 v2 passes rest,
    evs = startup c address v0 v1 v2
          ++ flat_map (pass_events c) passes ++ rest /\
    Forall encoded passes /\
    Forall (fun p => screen_region st = Some (pass_region p)) passes /\
    existsb is_slept rest = false.
Proof.
  intros c Hrun Hin.
  destruct (main_split _ _ _ _ _ _ Hrun)
    as [Hno | (x & et & st1 & fin & Htry & -> & Hclo)]; [contradiction|].
  destruct (closing_written _ _ _ _ Hclo) as (_ & Hslept & Hnr & _).
  apply in_app_or in Hin as [Hin|Hin]; [|contradiction].
  destruct (main_try_running _ _ _ _ _ _ Htry eq_refl eq_refl Hin)
    as (v0 & v1 & v2 & passes & partial & -> & Henc & Hreg & Hinc & _).
  exists v0, v1, v2, passes, (partial ++ fin).
  rewrite <- !app_assoc. split; [reflexivity|].
  split; [assumption|]. split; [exact Hreg|].
  rewrite existsb_app, Hinc, Hslept. reflexivity.
Qed.

Lemma running_is_whole_iterations_witness :
  exists v0 v1 v2 passes rest,
    events_of (run two_passes) =
      startup {| client_address := device_address |} device_address v0 v1 v2
        ++ flat_map (pass_events {| client_address := device_address |}) passes
        ++ rest /\
    Forall encoded passes /\
    Forall (fun p => screen_region (after_import two_passes)
                     = Some (pass_region p)) passes /\
    existsb is_slept rest = false.
Proof.
  apply (running_is_whole_iterations
           (S (List.length two_passes)) device_address (after_import two_passes)
           (result_of (run two_passes)) (events_of (run two_passes))
           (state_of (run two_passes))).
  - vm_compute. reflexivity.
  - vm_compute. tauto.
Defined.

(** X2: in a run that reaches the loop and that no interrupt signal
    reaches, the frames written are the ON frame, then the encodings of the
    sampled colours in the order of the samples, with at most the last
    sample left out, then at most the OFF frame; the OFF frame is there when
    the coroutine runs to its end. *)
Theorem frames_follow_samples fuel address st r evs st' :
  main fuel address st = (r, evs, st') ->
  In running evs ->
  uninterrupted evs ->
  exists frames tail,
    written evs = on_frame :: frames ++ tail /\
    Forall2 encodes (firstn (List.length frames) (sampled evs)) frames /\
    (List.length (sampled evs) <= S (List.length frames))%nat /\
    (tail = [] \/ tail = [off_frame]) /\
    (finished r -> tail = [off_frame]).
Proof.
  intros Hrun Hin _.
  destruct (main_split _ _ _ _ _ _ Hrun)
    as [Hno | (x & et & st1 & fin & Htry & -> & Hclo)]; [contradiction|].
  destruct (closing_written _ _ _ _ Hclo) as (Hsf & _ & Hnr & Hwf & Hfin).
  apply in_app_or in Hin as [Hin|Hin]; [|contradiction].
  destruct (main_try_running _ _ _ _ _ _ Htry eq_refl eq_refl Hin)
    as (v0 & v1 & v2 & passes & partial & -> & Henc & _ & _ & Hinc).
  set (c := {| client_address := address |}) in *.
  apply encoded_passes in Henc.
  assert (Hlen : List.length (map pass_colour passes)
                 = List.length (map pass_frame passes))
    by (rewrite !length_map; reflexivity).
  exists (map pass_frame passes ++ written partial), (written fin).
  rewrite !written_app, !sampled_app, written_passes, sampled_passes, Hsf.
  rewrite app_nil_r. cbn [startup written sampled app].
  split; [rewrite <- app_assoc; reflexivity|].
  split; [|split; [|split; assumption]].
  - destruct Hinc as [(Hw & _) | (cr & cg & cb & data & Hs & Hw & He)];
      rewrite Hw.
    + rewrite app_nil_r, <- Hlen, firstn_app, firstn_all, Nat.sub_diag.
      cbn [firstn]. rewrite app_nil_r. assumption.
    + rewrite Hs, length_app, <- Hlen. cbn [List.length].
      rewrite firstn_all2 by (rewrite length_app; cbn; lia).
      apply Forall2_app; [assumption|]. constructor; [exact He|constructor].
  - rewrite !length_app, !length_map.
    destruct Hinc as [(Hw & Hl) | (cr & cg & cb & data & Hs & Hw & He)].
    + lia.
    + rewrite Hs, Hw. cbn. lia.
Qed.

Lemma frames_follow_samples_witness :
  exists frames tail,
    written (events_of (run two_passes)) = on_frame :: frames ++ tail /\
    Forall2 encodes
      (firstn (List.length frames) (sampled (events_of (run two_passes))))
      frames /\
    (List.length (sampled (events_of (run two_passes)))
     <= S (List.length frames))%nat /\
    (tail = [] \/ tail = [off_frame]) /\
    (finished (result_of (run two_passes)) -> tail = [off_frame]).
Proof.
  apply (frames_follow_samples
           (S (List.length two_passes)) device_address (after_import two_passes)
           (result_of (run two_passes)) (events_of (run two_passes))
           (state_of (run two_passes))).
  - vm_compute. reflexivity.
  - vm_compute. tauto.
  - vm_compute. reflexivity.
Defined.

(** X3: any call of the start-up after the connection or of the loop that
    raises (the settle delay, the ON write, the screen grab, the save, the
    quantiser, the colour write, the pause) ends the run in the same way:
    the message of the exception is logged and the shutdown sequence
    follows; nothing is retried. *)
Theorem failed_call_ends_the_run fuel address st r evs st'
    pre o cls msg post :
  let c := {| client_address := address |} in
  main fuel address st = (r, evs, st') ->
  evs = pre ++ ECall o (Raises cls msg) :: post ->
  is_loop_call (ECall o (Raises cls msg)) = true ->
  exists fin,
    post = EPrint ("Error: " ++ msg) :: fin /\
    shutdown c fin r /\
    Forall (fun e => is_loop_call e = false) fin.
Proof.
  intros c Hrun Heq Hcall.
  destruct (main_cases _ _ _ _ _ _ Hrun)
    as [(o' & _ & _ & Hevs & _) |
        (v & x & q & last & fin & _ & Hevs & Hq & Hend & _ & _ & _ & Hclo & _)].
  - exfalso.
    assert (Hw : Forall (fun e => is_loop_call e = false) evs)
      by (rewrite Hevs; destruct o' as [w|cls' msg'|[|]|]; all_events).
    rewrite Heq in Hw.
    apply Forall_app in Hw as [_ Hw]. inversion Hw as [|? ? Hw' _].
    rewrite Hcall in Hw'. discriminate Hw'.
  - rewrite Heq in Hevs. symmetry in Hevs.
    destruct (split_behind (fun e => is_quiet e = true) _ _ _ _ _ Hevs Hq)
      as (l & -> & Hl); [discriminate|].
    assert (Hno : forall l', fin = l' ++ ECall o (Raises cls msg) :: post -> False).
    { intros l' Hfin. pose proof (closing_calls _ _ _ _ Hclo) as Hall.
      rewrite Hfin in Hall. apply Forall_app in Hall as [_ Hall].
      inversion Hall as [|? ? [Hw _] _]. rewrite Hcall in Hw. discriminate Hw. }
    destruct Hend as [e He|o' cls' msg'|o' b|o'|o'|]; cbn [app] in Hl.
    1,6: exfalso; exact (Hno _ Hl).
    2,3: destruct l as [|e1 [|e2 l]]; cbn [app] in Hl; inversion Hl; subst;
         exfalso; exact (Hno _ eq_refl).
    2: destruct l as [|e1 l]; cbn [app] in Hl; inversion Hl; subst;
       exfalso; exact (Hno _ eq_refl).
    destruct l as [|e1 l]; cbn [app] in Hl; inversion Hl; subst.
    2: exfalso; exact (Hno _ eq_refl).
    inversion Hclo as [e fin' rf He Hsd|e fin' rf He Hsd|y Hy]; subst.
    + exists fin'. split; [reflexivity|]. split; [assumption|].
      eapply Forall_impl; [|exact (shutdown_calls _ _ _ Hsd)].
      intros e [H _]; exact H.
    + discriminate He.
    + contradiction.
Qed.

Lemma failed_call_ends_the_run_witness :
  exists fin,
    skipn 13 (events_of (run grab_fails)) =
      EPrint ("Error: " ++ "screen grab failed") :: fin /\
    shutdown {| client_address := device_address |} fin
      (result_of (run grab_fails)) /\
    Forall (fun e => is_loop_call e = false) fin.
Proof.
  apply (failed_call_ends_the_run
           (S (List.length grab_fails)) device_address (after_import grab_fails)
           (result_of (run grab_fails)) (events_of (run grab_fails))
           (state_of (run grab_fails))
           (firstn 12 (events_of (run grab_fails)))
           (Grab (Some (640, 300, 1280, 780))) "OSError" "screen grab failed"
           (skipn 13 (events_of (run grab_fails)))).
  - vm_compute. reflexivity.
  - vm_compute. reflexivity.
  - reflexivity.
Defined.

(** X4: [main] returns normally only after an exception was caught and
    logged and the shutdown went through, the OFF write and the
    disconnection both returned; the loop never ends on its own. *)
Theorem main_returns_after_error fuel address st u evs st' :
  let c := {| client_address := address |} in
  main fuel address st = (Normal u, evs, st') ->
  exists pre e v v',
    is_Exception e = true /\
    evs = pre
      ++ [EPrint ("Error: " ++ str_exn e);
          EPrint "Disconnecting";
          EPrint "charUUID: 0000fff3-0000-1000-8000-00805f9b34fb";
          ECall (WriteGattChar c characteristic_uuid off_frame) (Returns v);
          EPrint "Turned off";
          ECall (Disconnect c) (Returns v');
          EPrint "Client Disconnected"; EPrint "Exited"; EPrint "Exited"].
Proof.
  intros c Hrun.
  destruct (main_cases _ _ _ _ _ _ Hrun)
    as [(o & _ & _ & _ & Hr) |
        (v & x & q & last & fin & _ & -> & _ & _ & _ & _ & _ & Hclo & _)].
  - discriminate Hr.
  - inversion Hclo as [e fin' rf He Hsd|e fin' rf He Hsd Hx Hf Hr|y Hy]; subst.
    + inversion Hsd; subst.
      exists (q ++ last), e. do 2 eexists. split; [assumption|].
      rewrite <- app_assoc. reflexivity.
    + destruct rf; discriminate Hr.
Qed.

Lemma main_returns_after_error_witness :
  exists pre e v v',
    is_Exception e = true /\
    events_of (run write_fails) = pre
      ++ [EPrint ("Error: " ++ str_exn e);
          EPrint "Disconnecting";
          EPrint "charUUID: 0000fff3-0000-1000-8000-00805f9b34fb";
          ECall (WriteGattChar {| client_address := device_address |}
                   characteristic_uuid off_frame) (Returns v);
          EPrint "Turned off";
          ECall (Disconnect {| client_address := device_address |}) (Returns v');
          EPrint "Client Disconnected"; EPrint "Exited"; EPrint "Exited"].
Proof.
  apply (main_returns_after_error
           (S (List.length write_fails)) device_address (after_import write_fails)
           tt (events_of (run write_fails)) (state_of (run write_fails))).
  vm_compute. reflexivity.
Defined.

(** * The screen region *)

(** X5: when the first grab returns an image of [w] by [h] pixels, the
    module-level statements set [screen_region] to a box of 640 by 480 pixels
    that is centred on the screen, the margins on either side differing by
    one pixel at most; in each direction the box lies inside the screen
    exactly when the screen is at least 640 pixels wide, respectively 480
    pixels high. *)
Theorem screen_region_centred (st : state) (w h : Z) r evs st' :
  module_init st = (r, evs, st') ->
  hd Never (script st) = Returns (VImage w h) ->
  r = Normal tt /\
  exists left top,
    screen_region st' = Some (left, top, left + 640, top + 480) /\
    left <= w - (left + 640) <= left + 1 /\
    top <= h - (top + 480) <= top + 1 /\
    (0 <= left /\ left + 640 <= w <-> 640 <= w) /\
    (0 <= top /\ top + 480 <= h <-> 480 <= h).
Proof.
  destruct st as [[|o s] hd cv reg]; cbn [script List.hd]; intros Hrun Ho;
    [discriminate Ho|]. subst o.
  cbn in Hrun. inversion Hrun; subst; clear Hrun.
  split; [reflexivity|].
  exists ((w - region_width) / 2), ((h - region_height) / 2).
  unfold region_width, region_height. cbn [screen_region].
  split; [reflexivity|].
  pose proof (Z.div_mod (w - 640) 2 ltac:(lia)) as Hw.
  pose proof (Z.mod_pos_bound (w - 640) 2 ltac:(lia)) as Hw'.
  pose proof (Z.div_mod (h - 480) 2 ltac:(lia)) as Hh.
  pose proof (Z.mod_pos_bound (h - 480) 2 ltac:(lia)) as Hh'.
  repeat split; lia.
Qed.

Lemma screen_region_centred_witness :
  result_of (module_init (initial_state [Returns (VImage 1921 1080)]))
    = Normal tt /\
  exists left top,
    screen_region
      (state_of (module_init (initial_state [Returns (VImage 1921 1080)])))
      = Some (left, top, left + 640, top + 480) /\
    left <= 1921 - (left + 640) <= left + 1 /\
    top <= 1080 - (top + 480) <= top + 1 /\
    (0 <= left /\ left + 640 <= 1921 <-> 640 <= 1921) /\
    (0 <= top /\ top + 480 <= 1080 <-> 480 <= 1080).
Proof.
  apply (screen_region_centred
           (initial_state [Returns (VImage 1921 1080)]) 1921 1080
           (result_of (module_init (initial_state [Returns (VImage 1921 1080)])))
           (events_of (module_init (initial_state [Returns (VImage 1921 1080)])))
           (state_of (module_init (initial_state [Returns (VImage 1921 1080)])))).
  - vm_compute. reflexivity.
  - reflexivity.
Defined.

(** X6: when the first grab of the script does not return an image (it
    raises, it is interrupted, it hangs or it returns something else), the
    script stops there: the grab is its only event, nothing is printed and no
    connection is attempted. *)
Theorem no_image_no_connection (s : list outcome) :
  (forall w h, hd Never s <> Returns (VImage w h)) ->
  events_of (program s) = [ECall (Grab None) (hd Never s)] /\
  exists x, result_of (program s) = Abort x.
Proof.
  intros Hno. unfold program.
  destruct s as [|[[|w h|cr cg cb|l]|cls msg|[|]|] s];
    try (split; [reflexivity | eexists; reflexivity]).
  exfalso. exact (Hno w h eq_refl).
Qed.

Lemma no_image_no_connection_witness :
  events_of (program [Raises "OSError" "no display"; ok; ok])
    = [ECall (Grab None) (Raises "OSError" "no display")] /\
  exists x, result_of (program [Raises "OSError" "no display"; ok; ok]) = Abort x.
Proof.
  apply (no_image_no_connection [Raises "OSError" "no display"; ok; ok]).
  intros w h. discriminate.
Defined.

(** * Listing the characteristics *)

Lemma print_characteristics_events (l : list string) (st : state) :
  print_characteristics l st =
  (Normal tt, map (fun uuid => EPrint ("Characteristic: " ++ uuid)) l, st).
Proof.
  induction l as [|uuid l IH]; [reflexivity|].
  cbn [print_characteristics map]. unfold bind, print. rewrite IH. reflexivity.
Qed.

Lemma print_services_events (l : list (list string)) (st : state) :
  print_services l st =
  (Normal tt,
   map (fun uuid => EPrint ("Characteristic: " ++ uuid)) (List.concat l), st).
Proof.
  induction l as [|service l IH]; [reflexivity|].
  cbn [print_services List.concat]. unfold bind.
  rewrite print_characteristics_events, IH, map_app. reflexivity.
Qed.

(** X7: when [get_services] returns the services, [get_characteristics]
    prints one line for every characteristic, service by service and in
    order, then the hint, and then it disconnects the client: what follows is
    [disconnect_client(client)] on the outcomes that are left, and its result
    is the result of [get_characteristics].  When [get_services] does not
    return, nothing is printed and the client is not disconnected. *)
Theorem get_characteristics_lists_then_disconnects (c : BleakClient)
    (st : state) (o : outcome) (s : list outcome) :
  script st = o :: s ->
  (forall services, o = Returns (VServices services) ->
     get_characteristics c st =
     (result_of (disconnect_client (Some c) (set_script st s)),
      ECall (GetServices c) o
      :: map (fun uuid => EPrint ("Characteristic: " ++ uuid)) (List.concat services)
      ++ EPrint "Please test these characteristics to identify the correct one"
      :: events_of (disconnect_client (Some c) (set_script st s)),
      state_of (disconnect_client (Some c) (set_script st s)))) /\
  (is_returns o = false ->
     (exists x, result_of (get_characteristics c st) = Abort x) /\
     (forall line, ~ In (EPrint line) (events_of (get_characteristics c st))) /\
     gatt_events (events_of (get_characteristics c st)) = []).
Proof.
  intros Hs. split.
  - intros services ->.
    unfold get_characteristics, await, external, bind.
    rewrite Hs. cbn [hd tl]. rewrite print_services_events.
    unfold print.
    destruct (disconnect_client (Some c) (set_script st s)) as [[r evs] st'].
    cbn [result_of events_of state_of fst snd app].
    reflexivity.
  - intros Hret. destruct st as [s0 h cv reg]. cbn [script] in Hs. subst s0.
    destruct o as [v|cls msg|[|]|]; [discriminate Hret|..];
      destruct h, cv as [[cl|]|]; cbn;
      (split; [eexists; reflexivity|]); (split; [|reflexivity]);
      intros line H; decompose [or] H; try discriminate; contradiction.
Qed.

Lemma get_characteristics_lists_then_disconnects_witness :
  let c := {| client_address := device_address |} in
  let st := after_import
              [Returns (VServices [["fff3"; "fff4"]; []; ["2a00"]]); ok; ok] in
  get_characteristics c st =
    (result_of (disconnect_client (Some c) (set_script st [ok; ok])),
     ECall (GetServices c) (Returns (VServices [["fff3"; "fff4"]; []; ["2a00"]]))
     :: map (fun uuid => EPrint ("Characteristic: " ++ uuid))
          (List.concat [["fff3"; "fff4"]; []; ["2a00"]])
     ++ EPrint "Please test these characteristics to identify the correct one"
     :: events_of (disconnect_client (Some c) (set_script st [ok; ok])),
     state_of (disconnect_client (Some c) (set_script st [ok; ok]))).
Proof.
  cbv zeta.
  apply (get_characteristics_lists_then_disconnects
           {| client_address := device_address |}
           (after_import
              [Returns (VServices [["fff3"; "fff4"]; []; ["2a00"]]); ok; ok])
           (Returns (VServices [["fff3"; "fff4"]; []; ["2a00"]])) [ok; ok]).
  - reflexivity.
  - reflexivity.
Defined.

(** * The framing of a colour, whatever the string *)

Lemma append_cons (c : ascii) (a b : string) :
  (String c a ++ b)%string = String c (a ++ b)%string.
Proof. reflexivity. Qed.

Lemma fromhex_at_String (pos : nat) (c : ascii) (rest : string) :
  fromhex_at pos (String c rest) =
  if is_space c then fromhex_at (S pos) rest
  else match hex_val c with
       | None => inl pos
       | Some top =>
           match rest with
           | EmptyString => inl (S pos)
           | String c' rest' =>
               match hex_val c' with
               | None => inl (S pos)
               | Some bot =>
                   match fromhex_at (S (S pos)) rest' with
                   | inl p => inl p
                   | inr bs => inr ((16 * top + bot) :: bs)
                   end
               end
           end
       end.
Proof. reflexivity. Qed.

(** Decoding a string that ends with [10ef] gives bytes that end with
    10 EF, wherever the decoding starts. *)
Lemma fromhex_at_trailer (value : string) :
  (forall pos bs,
     fromhex_at pos (value ++ "10ef")%string = inr bs ->
     exists mid, bs = mid ++ [16; 239]) /\
  (forall c pos bs,
     fromhex_at pos (String c value ++ "10ef")%string = inr bs ->
     exists mid, bs = mid ++ [16; 239]).
Proof.
  induction value as [|c' value [IH0 IH1]].
  - split.
    + intros pos bs H. cbn in H. inversion H. exists []. reflexivity.
    + intros c pos bs H. rewrite append_cons in H.
      change ("" ++ "10ef")%string with "10ef" in H.
      rewrite fromhex_at_String in H.
      destruct (is_space c).
      * cbn in H. inversion H. exists []. reflexivity.
      * destruct (hex_val c); cbn in H; discriminate H.
  - split; [exact (IH1 c')|].
    intros c pos bs H. rewrite !append_cons in H.
    rewrite fromhex_at_String in H.
    destruct (is_space c).
    + rewrite <- append_cons in H. exact (IH1 c' _ _ H).
    + destruct (hex_val c) as [top|]; [|discriminate H].
      destruct (hex_val c') as [bot|]; [|discriminate H].
      destruct (fromhex_at (S (S pos)) (value ++ "10ef")%string)
        as [p|bs'] eqn:Hrest; [discriminate H|].
      inversion H; subst bs.
      destruct (IH0 _ _ Hrest) as (mid & ->).
      exists ((16 * top + bot) :: mid). reflexivity.
Qed.

(** X8: whatever string [send_colour_to_device] is given, it either raises
    [ValueError] without any call, or makes one write, of a frame that
    starts with 7E 07 05 03 and ends with 10 EF. *)
Theorem colour_write_is_framed (c : BleakClient) (uuid : option string)
    (value : string) (st : state) :
  (exists msg,
     send_colour_to_device c uuid value st =
     (Abort (Raise (PyExc "ValueError" msg)), [], st)) \/
  (exists mid,
     written (events_of (send_colour_to_device c uuid value st)) =
     [[126; 7; 5; 3] ++ mid ++ [16; 239]]).
Proof.
  unfold send_colour_to_device, bytes_fromhex.
  destruct (fromhex ("7e070503" ++ value ++ "10ef")) as [pos|data] eqn:Hhex.
  - left. eexists. reflexivity.
  - right. unfold fromhex in Hhex. rewrite fromhex_at_header in Hhex.
    destruct (fromhex_at 8 (value ++ "10ef")%string) as [p|bs] eqn:Hrest;
      [discriminate Hhex|].
    inversion Hhex; subst data.
    destruct (proj1 (fromhex_at_trailer value) _ _ Hrest) as (mid & ->).
    exists mid. rewrite bind_ret_l. apply written_write_gatt_char.
Qed.

(** * SIGINT *)

(** X9: SIGINT while [main] is connecting finds the variable [client]
    unbound: the handler fails with [NameError] where it reads it, queues no
    task and never reaches [sys.exit]; inside the coroutine the error is
    logged and the [finally] clause then fails with [UnboundLocalError]. *)
Theorem sigint_while_connecting fuel address st r evs st' b :
  let c := {| client_address := address |} in
  main fuel address st = (r, evs, st') ->
  hd Never (script st) = Sigint b ->
  (forall cl, ~ In (ECreateTask cl) evs) /\
  (forall code, r <> Abort (Raise (SystemExit code)) /\
                r <> Abort (LoopExit (SystemExit code))) /\
  (b = false ->
   evs = [EPrint "Connecting"; ECall (Connect c) (Sigint false);
          EPrint ("Error: " ++ str_exn NameError_client)] /\
   r = Abort (Raise UnboundLocalError_client)) /\
  (b = true ->
   evs = [EPrint "Connecting"; ECall (Connect c) (Sigint true)] /\
   r = Abort (LoopExit NameError_client)).
Proof.
  intros c Hrun Ho.
  destruct (main_cases _ _ _ _ _ _ Hrun)
    as [(o & Ho' & _ & -> & ->) | (v & x & q & last & fin & Hv & _)].
  - rewrite Ho in Ho'. subst o.
    destruct b; cbn; repeat split; try discriminate.
    all: intros cl H; decompose [or] H; try discriminate; contradiction.
  - rewrite Ho in Hv. discriminate Hv.
Qed.

Lemma sigint_while_connecting_witness :
  (forall cl, ~ In (ECreateTask cl) (events_of (run [Sigint false; ok]))) /\
  (forall code,
     result_of (run [Sigint false; ok]) <> Abort (Raise (SystemExit code)) /\
     result_of (run [Sigint false; ok]) <> Abort (LoopExit (SystemExit code))) /\
  (false = false ->
   events_of (run [Sigint false; ok]) =
     [EPrint "Connecting";
      ECall (Connect {| client_address := device_address |}) (Sigint false);
      EPrint ("Error: " ++ str_exn NameError_client)] /\
   result_of (run [Sigint false; ok]) = Abort (Raise UnboundLocalError_client)) /\
  (false = true ->
   events_of (run [Sigint false; ok]) =
     [EPrint "Connecting";
      ECall (Connect {| client_address := device_address |}) (Sigint true)] /\
   result_of (run [Sigint false; ok]) = Abort (LoopExit NameError_client)).
Proof.
  apply (sigint_while_connecting
           3%nat device_address (after_import [Sigint false; ok])
           (result_of (run [Sigint false; ok]))
           (events_of (run [Sigint false; ok]))
           (state_of (run [Sigint false; ok])) false).
  - vm_compute. reflexivity.
  - reflexivity.
Defined.

Lemma sigint_queues_on_exit_witness :
  exists rest,
    skipn 12 (events_of (run sigint_in_the_loop)) =
      ECreateTask (Some {| client_address := device_address |}) :: rest /\
    (try_event (ECall (Sleep loop_interval) (Sigint false)) = true ->
     finished (result_of (run sigint_in_the_loop)) ->
     exists o',
       In (ECall (WriteGattChar {| client_address := device_address |}
                    characteristic_uuid off_frame) o') rest) /\
    (try_event (ECall (Sleep loop_interval) (Sigint false)) = false ->
     rest = []).
Proof.
  apply (sigint_queues_on_exit
           (S (List.length sigint_in_the_loop)) device_address
           (after_import sigint_in_the_loop)
           (result_of (run sigint_in_the_loop))
           (events_of (run sigint_in_the_loop))
           (state_of (run sigint_in_the_loop))
           VNone
           (firstn 11 (events_of (run sigint_in_the_loop)))
           (Sleep loop_interval) false
           (skipn 12 (events_of (run sigint_in_the_loop)))).
  - vm_compute. reflexivity.
  - reflexivity.
  - vm_compute. reflexivity.
Defined.

(** * Disconnecting *)

(** X11: [disconnect_client(client)] for a client, in any state: the OFF
    write is attempted first; [client.disconnect()] is called exactly when
    that write returns; the function returns, and prints [Exited], exactly
    when both calls return. *)
Theorem disconnect_client_steps (c : BleakClient) (st : state) :
  let x := disconnect_client (Some c) st in
  let o := hd Never (script st) in
  let o' := hd Never (tl (script st)) in
  gatt_events (events_of x) =
    ECall (WriteGattChar c characteristic_uuid off_frame) o
    :: (if is_returns o then [ECall (Disconnect c) o'] else []) /\
  (result_of x = Normal tt <-> is_returns o && is_returns o' = true) /\
  (In (EPrint "Exited") (events_of x) <->
   is_returns o && is_returns o' = true).
Proof.
  destruct st as [[|[v|cls msg|[|]|] [|[v'|cls' msg'|[|]|] s]] [|] [cv|] reg].
  all: cbv zeta; split; [reflexivity|].
  all: split; split; intros H; vm_compute in H; try discriminate H;
    try reflexivity.
  all: try (decompose [or] H; try discriminate; contradiction).
  all: vm_compute; repeat (first [left; reflexivity | right]).
Qed.

(** * Channels out of range *)

Lemma string_length_app (a b : string) :
  String.length (a ++ b) = (String.length a + String.length b)%nat.
Proof.
  induction a as [|c a IH]; [reflexivity|].
  rewrite append_cons. cbn [String.length]. rewrite IH. reflexivity.
Qed.

Lemma all_hex_app (a b : string) :
  all_hex (a ++ b) = all_hex a && all_hex b.
Proof.
  induction a as [|c a IH]; [reflexivity|].
  rewrite append_cons. cbn [all_hex]. rewrite IH.
  destruct (hex_val c); [|reflexivity].
  rewrite andb_assoc. reflexivity.
Qed.

(** Digits decode in pairs: an even number of them gives half as many
    bytes, an odd number is a [ValueError]. *)
Lemma fromhex_at_all_hex (s : string) :
  (forall pos, all_hex s = true ->
     if Nat.even (String.length s)
     then exists bs, fromhex_at pos s = inr bs /\
                     (2 * List.length bs = String.length s)%nat
     else exists p, fromhex_at pos s = inl p) /\
  (forall c pos, all_hex (String c s) = true ->
     if Nat.even (String.length (String c s))
     then exists bs, fromhex_at pos (String c s) = inr bs /\
                     (2 * List.length bs = String.length (String c s))%nat
     else exists p, fromhex_at pos (String c s) = inl p).
Proof.
  induction s as [|c' s [IH0 IH1]].
  - split.
    + intros pos _. exists []. split; reflexivity.
    + intros c pos H. cbn [all_hex] in H. cbn [String.length Nat.even].
      rewrite fromhex_at_String.
      destruct (hex_val c); [|discriminate H].
      rewrite andb_true_r in H. apply negb_true_iff in H. rewrite H.
      eexists. reflexivity.
  - split; [exact (IH1 c')|].
    intros c pos H. cbn [all_hex] in H.
    destruct (hex_val c) as [top|] eqn:Hc; [|discriminate H].
    apply andb_true_iff in H as [Hsp H].
    destruct (hex_val c') as [bot|] eqn:Hc'; [|discriminate H].
    apply andb_true_iff in H as [_ H]. apply negb_true_iff in Hsp.
    rewrite fromhex_at_String, Hsp, Hc, Hc'.
    change (Nat.even (String.length (String c (String c' s))))
      with (Nat.even (String.length s)).
    specialize (IH0 (S (S pos)) H).
    destruct (Nat.even (String.length s)).
    + destruct IH0 as (bs & -> & Hlen). eexists. split; [reflexivity|].
      cbn [List.length String.length]. lia.
    + destruct IH0 as (p & ->). eexists. reflexivity.
Qed.

(** A minus sign after digits is a [ValueError], wherever it falls. *)
Lemma fromhex_at_minus (s rest : string) :
  (forall pos, all_hex s = true ->
     exists p, fromhex_at pos (s ++ String "-" rest) = inl p) /\
  (forall c pos, all_hex (String c s) = true ->
     exists p, fromhex_at pos (String c s ++ String "-" rest) = inl p).
Proof.
  induction s as [|c' s [IH0 IH1]].
  - split.
    + intros pos _. eexists. reflexivity.
    + intros c pos H. cbn [all_hex] in H.
      destruct (hex_val c) eqn:Hc; [|discriminate H].
      rewrite andb_true_r in H. apply negb_true_iff in H.
      rewrite append_cons. change ("" ++ String "-" rest)%string
        with (String "-" rest).
      rewrite fromhex_at_String, H, Hc. eexists. reflexivity.
  - split; [exact (IH1 c')|].
    intros c pos H. cbn [all_hex] in H.
    destruct (hex_val c) as [top|] eqn:Hc; [|discriminate H].
    apply andb_true_iff in H as [Hsp H].
    destruct (hex_val c') as [bot|] eqn:Hc'; [|discriminate H].
    apply andb_true_iff in H as [_ H]. apply negb_true_iff in Hsp.
    rewrite !append_cons, fromhex_at_String, Hsp, Hc, Hc'.
    destruct (IH0 (S (S pos)) H) as (p & ->). eexists. reflexivity.
Qed.

Lemma hex_digits_spec (fuel : nat) :
  forall n acc, 0 <= n ->
    exists digits,
      hex_digits fuel n acc = (digits ++ acc)%string /\
      all_hex digits = true /\ (1 <= String.length digits)%nat.
Proof.
  assert (Hd : forall n, 0 <= n ->
            all_hex (String (hex_digit (n mod 16)) "") = true).
  { intros n Hn.
    destruct (hex_digit_val (n mod 16)) as [Hv Hs];
      [apply Z.mod_pos_bound; lia|].
    cbn [all_hex]. rewrite Hv, Hs. reflexivity. }
  induction fuel as [|fuel IH]; intros n acc Hn; cbn [hex_digits].
  - exists (String (hex_digit (n mod 16)) ""). repeat split; auto; cbn; lia.
  - destruct (n / 16 =? 0).
    + exists (String (hex_digit (n mod 16)) ""). repeat split; auto; cbn; lia.
    + destruct (IH (n / 16) (String (hex_digit (n mod 16)) acc))
        as (digits & -> & Hall & Hlen); [apply Z.div_pos; lia|].
      exists (digits ++ String (hex_digit (n mod 16)) "")%string.
      split; [|split].
      * clear. induction digits as [|c d IHd]; [reflexivity|].
        rewrite !append_cons, IHd. reflexivity.
      * rewrite all_hex_app, Hall, (Hd n Hn). reflexivity.
      * rewrite string_length_app. cbn. lia.
Qed.

(** A channel that is not negative is formatted as digits, two of them
    exactly when it is at most 255. *)
Lemma format_02x_digits (n : Z) :
  0 <= n ->
  all_hex (format_02x n) = true /\
  (2 <= String.length (format_02x n))%nat /\
  (String.length (format_02x n) = 2%nat <-> n <= 255).
Proof.
  intros Hn.
  destruct (Z_le_gt_dec n 255) as [Hle|Hgt].
  - rewrite format_02x_byte by lia.
    assert (Hhi : 0 <= n / 16 < 16)
      by (split; [apply Z.div_pos | apply Z.div_lt_upper_bound]; lia).
    assert (Hlo : 0 <= n mod 16 < 16) by (apply Z.mod_pos_bound; lia).
    destruct (hex_digit_val _ Hhi) as [Hv1 Hs1].
    destruct (hex_digit_val _ Hlo) as [Hv2 Hs2].
    cbn [all_hex String.length]. rewrite Hv1, Hs1, Hv2, Hs2.
    repeat split; auto.
  - assert (Hlen : (3 <= String.length (to_hex n))%nat /\
                   all_hex (to_hex n) = true).
    { unfold to_hex.
      assert (Hlog : 8 <= Z.log2 n) by (apply Z.log2_le_pow2; lia).
      destruct (Z.to_nat (Z.log2 n)) as [|[|fuel]] eqn:Hf; try lia.
      cbn [hex_digits].
      assert (Hq1 : 16 <= n / 16) by (apply Z.div_le_lower_bound; lia).
      assert (Hq2 : 1 <= n / 16 / 16) by (apply Z.div_le_lower_bound; lia).
      assert (H1 : (n / 16 =? 0) = false) by (apply Z.eqb_neq; lia).
      assert (H2 : (n / 16 / 16 =? 0) = false) by (apply Z.eqb_neq; lia).
      rewrite H1, H2.
      destruct (hex_digits_spec fuel (n / 16 / 16)
                  (String (hex_digit ((n / 16) mod 16))
                     (String (hex_digit (n mod 16)) "")))
        as (digits & -> & Hall & Hl); [lia|].
      rewrite string_length_app, all_hex_app, Hall. cbn [String.length].
      split; [lia|].
      destruct (hex_digit_val ((n / 16) mod 16)) as [Hv1 Hs1];
        [apply Z.mod_pos_bound; lia|].
      destruct (hex_digit_val (n mod 16)) as [Hv2 Hs2];
        [apply Z.mod_pos_bound; lia|].
      cbn [all_hex]. rewrite Hv1, Hs1, Hv2, Hs2. reflexivity. }
    destruct Hlen as [Hlen Hall].
    unfold format_02x.
    destruct (n <? 0) eqn:Hneg; [apply Z.ltb_lt in Hneg; lia|].
    destruct (String.length (to_hex n) <? 2)%nat eqn:Hshort;
      [apply Nat.ltb_lt in Hshort; lia|].
    split; [assumption|]. split; [lia|]. split; lia.
Qed.

Lemma string_app_assoc (a b c : string) :
  ((a ++ b) ++ c = a ++ (b ++ c))%string.
Proof.
  induction a as [|x a IH]; [reflexivity|].
  rewrite !append_cons, IH. reflexivity.
Qed.

Lemma format_02x_negative (n : Z) :
  n < 0 -> format_02x n = String "-" (to_hex (- n)).
Proof.
  intros Hn. unfold format_02x.
  destruct (n <? 0) eqn:H; [reflexivity|]. apply Z.ltb_ge in H. lia.
Qed.

(** A negative channel makes the encoding fail. *)
Lemma ENCODE_COLOR_negative (r g b : Z) :
  r < 0 \/ g < 0 \/ b < 0 -> exists pos, ENCODE_COLOR r g b = inl pos.
Proof.
  intros Hneg. unfold ENCODE_COLOR, fromhex.
  destruct (Z_lt_ge_dec r 0) as [Hr|Hr].
  { rewrite (format_02x_negative r Hr), !string_app_assoc.
    exact (proj1 (fromhex_at_minus "7e070503" _) 0%nat eq_refl). }
  destruct (format_02x_digits r ltac:(lia)) as (Har & _).
  destruct (Z_lt_ge_dec g 0) as [Hg|Hg].
  { rewrite (format_02x_negative g Hg), !string_app_assoc.
    rewrite <- (string_app_assoc "7e070503").
    apply (proj1 (fromhex_at_minus ("7e070503" ++ format_02x r) _)).
    rewrite all_hex_app, Har. reflexivity. }
  destruct (format_02x_digits g ltac:(lia)) as (Hag & _).
  assert (Hb : b < 0) by lia.
  rewrite (format_02x_negative b Hb), !string_app_assoc.
  rewrite <- (string_app_assoc (format_02x r)).
  rewrite <- (string_app_assoc "7e070503").
  apply (proj1 (fromhex_at_minus
                  ("7e070503" ++ (format_02x r ++ format_02x g)) _)).
  rewrite !all_hex_app, Har, Hag. reflexivity.
Qed.

(** X12: the encoding of a colour is a frame of nine bytes exactly when the
    three channels are in [0, 255].  Nothing clamps a channel: a negative
    one makes [bytes.fromhex] fail, and one above 255 takes more than two
    digits, which either makes [bytes.fromhex] fail or gives a longer
    frame. *)
Theorem nine_byte_frame_iff_in_range (r g b : Z) :
  ((exists frame, ENCODE_COLOR r g b = inr frame /\
                  List.length frame = 9%nat) <->
   (0 <= r <= 255 /\ 0 <= g <= 255 /\ 0 <= b <= 255)) /\
  (r < 0 \/ g < 0 \/ b < 0 -> exists pos, ENCODE_COLOR r g b = inl pos).
Proof.
  split; [|apply ENCODE_COLOR_negative].
  split.
  - intros (frame & Henc & Hlen).
    assert (Hpos : 0 <= r /\ 0 <= g /\ 0 <= b).
    { destruct (Z_lt_ge_dec r 0); destruct (Z_lt_ge_dec g 0);
        destruct (Z_lt_ge_dec b 0); try lia;
        (destruct (ENCODE_COLOR_negative r g b ltac:(lia)) as (pos & Hp);
         rewrite Hp in Henc; discriminate Henc). }
    destruct Hpos as (Hr & Hg & Hb).
    destruct (format_02x_digits r Hr) as (Har & Hlr & Hir).
    destruct (format_02x_digits g Hg) as (Hag & Hlg & Hig).
    destruct (format_02x_digits b Hb) as (Hab & Hlb & Hib).
    unfold ENCODE_COLOR, fromhex in Henc.
    pose proof (proj1 (fromhex_at_all_hex
                  ("7e070503" ++ (format_02x r ++ format_02x g ++ format_02x b)
                     ++ "10ef")%string) 0%nat) as Hdec.
    rewrite !all_hex_app, Har, Hag, Hab in Hdec. specialize (Hdec eq_refl).
    rewrite !string_length_app in Hdec.
    change (String.length "7e070503") with 8%nat in Hdec.
    change (String.length "10ef") with 4%nat in Hdec.
    destruct (Nat.even _) in Hdec.
    + destruct Hdec as (bs & Hbs & Hl). rewrite Hbs in Henc.
      inversion Henc; subst bs. lia.
    + destruct Hdec as (p & Hp). rewrite Hp in Henc. discriminate Henc.
  - intros (Hr & Hg & Hb). eexists. split.
    + apply ENCODE_COLOR_bytes; assumption.
    + reflexivity.
Qed.
